(** * Table-aware document chunking: [BankingDocumentSplitter]

    A shallow embedding of the class [BankingDocumentSplitter] of the
    document processor (detection of table regions with regular
    expressions, expansion of a seed to its table, merging of nearby
    regions, interleaved emission of prose and table chunks) and the
    properties the specification states about it.  After them come the
    class [BankingDocumentProcessor] that uses the splitter, the
    [embedDocuments] it calls and the handler [POST] that calls it,
    with what the code shows about them.

    JavaScript strings are sequences of UTF-16 code units; offsets are
    integers; [-1] is the "not found" result of [indexOf]. *)

From Stdlib Require Import String Ascii.
From Stdlib Require Import ZArith NArith List Bool Lia Sorted.
Import ListNotations.
Open Scope Z_scope.

(* ------------------------------------------------------------------ *)
(** ** Strings *)

Module JS.

(** A code unit. *)
Definition char := N.

(** A JavaScript string. *)
Definition jsstring := list char.

(** A string literal of the source, as code units. *)
Definition lit (s : String.string) : jsstring :=
  map N_of_ascii (list_ascii_of_string s).

Definition nl : char := 10%N.

(** [s.length] *)
Definition len (s : jsstring) : Z := Z.of_nat (length s).

(** The code units of [s] from offset [from] (inclusive) to [to]
    (exclusive); empty when [to <= from]. *)
Definition substr (s : jsstring) (from to : Z) : jsstring :=
  firstn (Z.to_nat (to - from)) (skipn (Z.to_nat from) s).

(** Relative offsets of [String.prototype.slice]: a negative offset
    counts from the end, and the result is clamped to [0, length]. *)
Definition relIndex (l i : Z) : Z :=
  if i <? 0 then Z.max (l + i) 0 else Z.min i l.

(** [s.slice(a, b)] *)
Definition slice (s : jsstring) (a b : Z) : jsstring :=
  substr s (relIndex (len s) a) (relIndex (len s) b).

(** [s.slice(a)] *)
Definition sliceFrom (s : jsstring) (a : Z) : jsstring :=
  slice s a (len s).

(** First offset, counted from [i], of [c] in [s]; [-1] when absent. *)
Fixpoint indexFrom (c : char) (s : jsstring) (i : Z) : Z :=
  match s with
  | [] => -1
  | x :: s' => if N.eqb x c then i else indexFrom c s' (i + 1)
  end.

(** [s.indexOf(c, pos)] for a one-character search string: the search
    starts at [pos] clamped to [0, length]. *)
Definition indexOf (s : jsstring) (c : char) (pos : Z) : Z :=
  let k := Z.min (Z.max pos 0) (len s) in
  indexFrom c (skipn (Z.to_nat k) s) k.

(** Last offset of [c] in [s], offsets counted from [i]; [acc] when
    absent. *)
Fixpoint lastIndexIn (c : char) (s : jsstring) (i acc : Z) : Z :=
  match s with
  | [] => acc
  | x :: s' => lastIndexIn c s' (i + 1) (if N.eqb x c then i else acc)
  end.

(** [s.lastIndexOf(c, pos)] for a one-character search string: the
    largest offset not above [pos] (clamped below by 0) at which [c]
    occurs; [-1] when there is none. *)
Definition lastIndexOf (s : jsstring) (c : char) (pos : Z) : Z :=
  lastIndexIn c (firstn (S (Z.to_nat (Z.max pos 0))) s) 0 (-1).

(** Line terminators of ECMAScript: LF, CR, LS, PS. *)
Definition isLineTerminator (c : char) : bool :=
  (N.eqb c 10 || N.eqb c 13 || N.eqb c 8232 || N.eqb c 8233)%N.

(** White space of ECMAScript: TAB, VT, FF, SP, NBSP, ZWNBSP and the
    space separators of Unicode. *)
Definition isWhiteSpace (c : char) : bool :=
  (N.eqb c 9 || N.eqb c 11 || N.eqb c 12 || N.eqb c 32 || N.eqb c 160
   || N.eqb c 5760 || (N.leb 8192 c && N.leb c 8202)
   || N.eqb c 8239 || N.eqb c 8287 || N.eqb c 12288 || N.eqb c 65279)%N.

(** What [trim] removes and what the class escape [\s] matches. *)
Definition isSpace (c : char) : bool := isWhiteSpace c || isLineTerminator c.

Fixpoint dropWhile (p : char -> bool) (s : jsstring) : jsstring :=
  match s with
  | [] => []
  | c :: s' => if p c then dropWhile p s' else s
  end.

(** [s.trim()] *)
Definition trim (s : jsstring) : jsstring :=
  rev (dropWhile isSpace (rev (dropWhile isSpace s))).

End JS.
Import JS.

(* ------------------------------------------------------------------ *)
(** ** Regular expressions

    The patterns of the source are sequences of: a character class
    matched once, a character class under a greedy [*] or [+], and the
    assertions [^] and [$].  The matcher is the backtracking matcher of
    ECMAScript restricted to these forms: a greedy quantifier takes as
    many characters as it can and gives them back one at a time when
    the rest of the pattern fails. *)

Module RegExp.

Inductive item : Type :=
| One (p : char -> bool)        (* a class, once *)
| Star (p : char -> bool)       (* a class, greedy [*] *)
| Plus (p : char -> bool)       (* a class, greedy [+] *)
| Bol                           (* [^] *)
| Eol.                          (* [$] *)

(** A [RegExp] object: its pattern, its flags, and the mutable
    [lastIndex] property that [exec] reads and writes under [g]. *)
Record t : Type := mk {
  source : list item;
  global : bool;
  multiline : bool;
  lastIndex : Z
}.

(** Character classes of the patterns. *)
Definition chr (a : ascii) : char -> bool := fun c => N.eqb c (N_of_ascii a).
Definition digit : char -> bool := fun c => (N.leb 48 c && N.leb c 57)%N.
Definition upper : char -> bool := fun c => (N.leb 65 c && N.leb c 90)%N.
Definition dot : char -> bool := fun c => negb (isLineTerminator c).
Definition pipeOrSpace : char -> bool :=
  fun c => N.eqb c 124 || isSpace c.
Definition sepChar : char -> bool :=
  fun c => N.eqb c 45 || isSpace c || N.eqb c 124 || N.eqb c 58.

(** The items matching the characters of a literal, one after another. *)
Definition str (s : String.string) : list item :=
  map (fun a => One (chr a)) (list_ascii_of_string s).

(** [^]: at the start of the input, or under [m] after a line
    terminator.  [prev] is the character before the position. *)
Definition atBol (m : bool) (prev : option char) : bool :=
  match prev with
  | None => true
  | Some c => m && isLineTerminator c
  end.

(** [$]: at the end of the input, or under [m] before a line
    terminator.  [s] is the input from the position on. *)
Definition atEol (m : bool) (s : jsstring) : bool :=
  match s with
  | [] => true
  | c :: _ => m && isLineTerminator c
  end.

(** Greedy repetition of the class [p] followed by the continuation
    [k]: the number of characters matched, the longest repetition
    tried first. *)
Fixpoint star (p : char -> bool)
    (k : option char -> jsstring -> option nat)
    (prev : option char) (s : jsstring) : option nat :=
  match s with
  | c :: s' =>
      if p c then
        match star p k (Some c) s' with
        | Some n => Some (S n)
        | None => k prev s
        end
      else k prev s
  | [] => k prev s
  end.

(** Match of the items [r] at the position with [prev] before it and
    [s] from it on: the length of the match. *)
Fixpoint run (m : bool) (r : list item)
    (prev : option char) (s : jsstring) : option nat :=
  match r with
  | [] => Some O
  | One p :: r' =>
      match s with
      | c :: s' => if p c then option_map S (run m r' (Some c) s') else None
      | [] => None
      end
  | Star p :: r' => star p (run m r') prev s
  | Plus p :: r' =>
      match s with
      | c :: s' =>
          if p c then option_map S (star p (run m r') (Some c) s') else None
      | [] => None
      end
  | Bol :: r' => if atBol m prev then run m r' prev s else None
  | Eol :: r' => if atEol m s then run m r' prev s else None
  end.

(** The first position, from offset [i] on, at which the items match:
    the offset and the length of the match. *)
Fixpoint search (m : bool) (r : list item)
    (prev : option char) (s : jsstring) (i : Z) : option (Z * nat) :=
  match run m r prev s with
  | Some n => Some (i, n)
  | None =>
      match s with
      | [] => None
      | c :: s' => search m r (Some c) s' (i + 1)
      end
  end.

(** The character before offset [i] of [s]. *)
Definition before (s : jsstring) (i : Z) : option char :=
  if i <=? 0 then None else nth_error s (Z.to_nat (i - 1)).

(** The first match at or after offset [from]. *)
Definition searchAt (re : t) (s : jsstring) (from : Z) : option (Z * nat) :=
  search (multiline re) (source re) (before s from)
         (skipn (Z.to_nat from) s) from.

(** The result array of a successful [exec]: [match.index] and
    [match[0]]. *)
Record result : Type := mkResult {
  index : Z;
  matched : jsstring
}.

Definition setLastIndex (re : t) (i : Z) : t :=
  mk (source re) (global re) (multiline re) i.

(** [re.exec(s)]: the match, and the object with its [lastIndex]
    updated.  Without [g] the search starts at 0 and [lastIndex] is
    left alone; with [g] it starts at [lastIndex], which becomes the end
    of the match, or 0 when there is none. *)
Definition exec (re : t) (s : jsstring) : option result * t :=
  if global re then
    if len s <? lastIndex re then (None, setLastIndex re 0)
    else
      match searchAt re s (Z.max (lastIndex re) 0) with
      | Some (i, n) =>
          (Some (mkResult i (firstn n (skipn (Z.to_nat i) s))),
           setLastIndex re (i + Z.of_nat n))
      | None => (None, setLastIndex re 0)
      end
  else
    match searchAt re s 0 with
    | Some (i, n) => (Some (mkResult i (firstn n (skipn (Z.to_nat i) s))), re)
    | None => (None, re)
    end.

(** [re.test(s)] for a regular expression without [g]. *)
Definition test (r : list item) (m : bool) (s : jsstring) : bool :=
  match search m r None s 0 with
  | Some _ => true
  | None => false
  end.

(** The items hold a class that must be matched at least once, so
    that no match is empty. *)
Definition consumes (r : list item) : bool :=
  existsb (fun i => match i with
                    | One _ | Plus _ => true
                    | Star _ | Bol | Eol => false
                    end) r.

End RegExp.

(* ------------------------------------------------------------------ *)
(** ** Documents and the generic splitter *)

(** A metadata value of a document. *)
#[warnings="-register-all"]
Inductive value : Type :=
| VStr (s : jsstring)
| VNum (z : Z)
| VObj (fields : list (String.string * value)).

(** A [Document] of the splitter library: its text and its metadata
    object. *)
Record Document : Type := mkDocument {
  pageContent : jsstring;
  metadata : list (String.string * value)
}.

(** The fields a [RecursiveCharacterTextSplitter] is constructed with. *)
Record TextSplitterParams : Type := mkParams {
  chunkSize : Z;
  chunkOverlap : Z;
  separators : list jsstring
}.

(** A region of the text taken for a table. *)
Record TableSection : Type := mkSection {
  start : Z;
  end_ : Z;
  header : jsstring
}.

(** An instance of [BankingDocumentSplitter]: the fields of the
    splitter it extends, and its own patterns, whose [lastIndex]
    properties are the mutable state of the instance. *)
Record BankingDocumentSplitter : Type := mkSplitter {
  params : TextSplitterParams;
  tablePatterns : list RegExp.t
}.

Module Pattern.
Import RegExp.

(** [/Table \d+\.\d+/] *)
Definition tableCaption : list item :=
  str "Table " ++ [Plus digit; One (chr "."); Plus digit].

(** [/Schedule [A-Z]+/] *)
Definition schedule : list item := str "Schedule " ++ [Plus upper].

(** [/Exhibit \d+/] *)
Definition exhibit : list item := str "Exhibit " ++ [Plus digit].

(** [/\|.*\|/] *)
Definition tableRow : list item := [One (chr "|"); Star dot; One (chr "|")].

(** [/^[\|\s]*[-\s\|\:]+[\|\s]*$/] *)
Definition tableSeparator : list item :=
  [Bol; Star pipeOrSpace; Plus sepChar; Star pipeOrSpace; Eol].

End Pattern.

(** [new BankingDocumentSplitter()] *)
Definition newBankingDocumentSplitter : BankingDocumentSplitter :=
  {| params :=
       {| chunkSize := 1000;
          chunkOverlap := 200;
          separators := [[nl; nl]; [nl]; lit "|"; lit " "; []] |};
     tablePatterns :=
       [ RegExp.mk Pattern.tableCaption true false 0;
         RegExp.mk Pattern.schedule true false 0;
         RegExp.mk Pattern.exhibit true false 0;
         RegExp.mk Pattern.tableRow true false 0;
         RegExp.mk Pattern.tableSeparator true true 0 ] |}.

(** [isTableLine] *)
Definition isTableLine (line : jsstring) : bool :=
  RegExp.test Pattern.tableSeparator false (trim line)
  || RegExp.test Pattern.tableRow false line.

(** [findLineStart] *)
Definition findLineStart (text : jsstring) (index : Z) : Z :=
  let lineStart := lastIndexOf text nl index in
  if lineStart =? -1 then 0 else lineStart + 1.

(** [findLineEnd] *)
Definition findLineEnd (text : jsstring) (index : Z) : Z :=
  let lineEnd := indexOf text nl index in
  if lineEnd =? -1 then len text else lineEnd.

(** The first loop of [expandTableContext]; [None] when the loop has
    not ended after [fuel] tests of its condition. *)
Fixpoint lookBackwards (fuel : nat) (text : jsstring)
    (start prevLine : Z) : option Z :=
  match fuel with
  | O => None
  | S fuel' =>
      if (0 <? prevLine)
         && isTableLine (slice text prevLine (findLineEnd text prevLine))
      then lookBackwards fuel' text prevLine (findLineStart text (prevLine - 1))
      else Some start
  end.

(** The second loop of [expandTableContext]. *)
Fixpoint lookForwards (fuel : nat) (text : jsstring)
    (end_ nextLine : Z) : option Z :=
  match fuel with
  | O => None
  | S fuel' =>
      if (nextLine <? len text)
         && isTableLine (slice text (findLineStart text nextLine) nextLine)
      then lookForwards fuel' text nextLine (findLineEnd text (nextLine + 1))
      else Some end_
  end.

(** [expandTableContext]: the pair [{start, end}]. *)
Definition expandTableContext (fuel : nat) (text : jsstring)
    (startIndex : Z) : option (Z * Z) :=
  match lookBackwards fuel text startIndex (findLineStart text startIndex) with
  | None => None
  | Some start =>
      match lookForwards fuel text startIndex (findLineEnd text startIndex) with
      | None => None
      | Some end_ => Some (start, end_)
      end
  end.

(** [sections.sort((a, b) => a.start - b.start)]: the sort of an array
    is stable, so the result is the one sorted arrangement that keeps
    sections of equal [start] in their order. *)
Fixpoint insertByStart (x : TableSection) (l : list TableSection)
    : list TableSection :=
  match l with
  | [] => [x]
  | y :: l' => if start x <=? start y then x :: l else y :: insertByStart x l'
  end.

Fixpoint sortByStart (l : list TableSection) : list TableSection :=
  match l with
  | [] => []
  | x :: l' => insertByStart x (sortByStart l')
  end.

(** What the loop of [mergeOverlappingSections] does to [last] when
    [current] is within the tolerance. *)
Definition absorb (last current : TableSection) : TableSection :=
  {| start := start last;
     end_ := Z.max (end_ last) (end_ current);
     header := header last ++ lit ", " ++ header current |}.

(** The loop of [mergeOverlappingSections]; the array [merged] is
    [done ++ [last]]. *)
Fixpoint mergeLoop (done : list TableSection) (last : TableSection)
    (rest : list TableSection) : list TableSection :=
  match rest with
  | [] => done ++ [last]
  | current :: rest' =>
      if start current <=? end_ last + 50
      then mergeLoop done (absorb last current) rest'
      else mergeLoop (done ++ [last]) current rest'
  end.

(** [mergeOverlappingSections] *)
Definition mergeOverlappingSections (sections : list TableSection)
    : list TableSection :=
  match sortByStart sections with
  | [] => []
  | first :: rest => mergeLoop [] first rest
  end.

(** The [while] loop of [findTableSections] for one pattern; [None]
    when it has not ended after [fuel] calls of [exec], or when
    [expandTableContext] has not. *)
Fixpoint execLoop (fuel : nat) (text : jsstring) (pattern : RegExp.t)
    (sections : list TableSection) : option (list TableSection * RegExp.t) :=
  match fuel with
  | O => None
  | S fuel' =>
      match RegExp.exec pattern text with
      | (None, pattern') => Some (sections, pattern')
      | (Some m, pattern') =>
          match expandTableContext fuel' text (RegExp.index m) with
          | None => None
          | Some (s, e) =>
              execLoop fuel' text pattern'
                (sections ++ [mkSection s e (RegExp.matched m)])
          end
      end
  end.

(** The [for] loop of [findTableSections] over the patterns. *)
Fixpoint forPatterns (fuel : nat) (text : jsstring)
    (patterns : list RegExp.t) (sections : list TableSection)
    : option (list TableSection * list RegExp.t) :=
  match patterns with
  | [] => Some (sections, [])
  | pattern :: rest =>
      match execLoop fuel text pattern sections with
      | None => None
      | Some (sections', pattern') =>
          match forPatterns fuel text rest sections' with
          | None => None
          | Some (sections'', rest') => Some (sections'', pattern' :: rest')
          end
      end
  end.

(** [findTableSections]: the merged sections, and the instance with
    the [lastIndex] its patterns are left with. *)
Definition findTableSections (fuel : nat) (this : BankingDocumentSplitter)
    (text : jsstring) : option (list TableSection * BankingDocumentSplitter) :=
  match forPatterns fuel text (tablePatterns this) [] with
  | None => None
  | Some (sections, patterns') =>
      Some (mergeOverlappingSections sections,
            mkSplitter (params this) patterns')
  end.

(** The metadata object of a table chunk. *)
Definition tableMetadata (header tableText : jsstring)
    : list (String.string * value) :=
  [("type"%string, VStr (lit "table"));
   ("header"%string, VStr header);
   ("table_content"%string, VStr tableText)].

(** [createTableChunk] *)
Definition createTableChunk (text : jsstring) (start end_ : Z)
    (header : jsstring) : Document :=
  let tableText := slice text start end_ in
  let contextBefore := slice text (Z.max 0 (start - 200)) start in
  let contextAfter := slice text end_ (Z.min (len text) (end_ + 200)) in
  let content :=
    contextBefore ++ [nl; nl] ++ lit "[TABLE: " ++ header ++ lit "]" ++ [nl]
    ++ tableText ++ [nl] ++ lit "[END TABLE]" ++ [nl; nl] ++ contextAfter in
  {| pageContent := content; metadata := tableMetadata header tableText |}.

Section Splitter.

(** [createDocuments] of the library class [RecursiveCharacterTextSplitter]
    that the splitter extends: from the fields of the instance and the
    texts to the documents. *)
Variable createDocuments : TextSplitterParams -> list jsstring -> list Document.

(** The [for] loop of [splitTextIntoDocuments]: the chunks and
    [lastIndex] after it. *)
Fixpoint forTableMatches (this : BankingDocumentSplitter) (text : jsstring)
    (tableMatches : list TableSection) (lastIndex : Z)
    (chunks : list Document) : list Document * Z :=
  match tableMatches with
  | [] => (chunks, lastIndex)
  | tableMatch :: rest =>
      let chunks1 :=
        if lastIndex <? start tableMatch
        then chunks ++ createDocuments (params this)
                         [slice text lastIndex (start tableMatch)]
        else chunks in
      let tableChunk :=
        createTableChunk text (start tableMatch) (end_ tableMatch)
                         (header tableMatch) in
      forTableMatches this text rest (end_ tableMatch) (chunks1 ++ [tableChunk])
  end.

(** [splitTextIntoDocuments]: the chunks, and the instance as the call
    leaves it; [None] when the call has not returned within [fuel]. *)
Definition splitTextIntoDocuments (fuel : nat) (this : BankingDocumentSplitter)
    (text : jsstring) : option (list Document * BankingDocumentSplitter) :=
  match findTableSections fuel this text with
  | None => None
  | Some (tableMatches, this') =>
      match tableMatches with
      | [] => Some (createDocuments (params this') [text], this')
      | _ :: _ =>
          let '(chunks, lastIndex) :=
            forTableMatches this' text tableMatches 0 [] in
          if lastIndex <? len text
          then Some (chunks ++ createDocuments (params this')
                                 [sliceFrom text lastIndex], this')
          else Some (chunks, this')
      end
  end.

End Splitter.

(* ------------------------------------------------------------------ *)
(** ** Spans of the text *)

(** A span of the text as [splitTextIntoDocuments] walks it: prose
    handed to the generic splitter, or a table region. *)
Inductive Span : Type :=
| Prose (s : jsstring)
| Table (r : TableSection).

(** The spans from [lastIndex] on, left to right. *)
Fixpoint spansFrom (text : jsstring) (tableMatches : list TableSection)
    (lastIndex : Z) : list Span :=
  match tableMatches with
  | [] =>
      if lastIndex <? len text then [Prose (sliceFrom text lastIndex)] else []
  | r :: rest =>
      (if lastIndex <? start r
       then [Prose (slice text lastIndex (start r))] else [])
      ++ Table r :: spansFrom text rest (end_ r)
  end.

(** The spans of the whole text; without a table region the text is
    one span of prose. *)
Definition sourceSpans (text : jsstring) (tableMatches : list TableSection)
    : list Span :=
  match tableMatches with
  | [] => [Prose text]
  | _ :: _ => spansFrom text tableMatches 0
  end.


(** The chunks of a span: what the generic splitter of the instance
    makes of prose, and the one table chunk of a region. *)
Definition emit
    (createDocuments : TextSplitterParams -> list jsstring -> list Document)
    (this : BankingDocumentSplitter) (text : jsstring) (p : Span)
    : list Document :=
  match p with
  | Prose s => createDocuments (params this) [s]
  | Table r => [createTableChunk text (start r) (end_ r) (header r)]
  end.

(* ------------------------------------------------------------------ *)
(** ** The chunks put together again, as the specification words it

    What the specification asks of the chunks of a call, stated on the
    chunks alone: table chunks with markers and context stripped,
    generic chunks with the overlap discounted, in the order of
    emission, are the text. *)









(* ------------------------------------------------------------------ *)
(** ** Regions *)

(** The condition of the first loop of [expandTableContext] at its
    first test. *)
Definition stalls (text : jsstring) (startIndex : Z) : bool :=
  let prevLine := findLineStart text startIndex in
  (0 <? prevLine)
  && isTableLine (slice text prevLine (findLineEnd text prevLine)).

(** A section as [findTableSections] pushes it: both ends are the
    offset of the match. *)
Definition seeded (text : jsstring) (s : TableSection) : Prop :=
  0 <= start s <= len text /\ end_ s = start s.

(** The two ends of a section are in order and inside [[0, hi]]. *)
Definition bounded (hi : Z) (r : TableSection) : Prop :=
  0 <= start r <= end_ r /\ end_ r <= hi.

(** The second section starts more than the tolerance after the end of
    the first. *)
Definition apart (a b : TableSection) : Prop := end_ a + 50 < start b.

(** The orders of the sections by their starts and by their ends. *)
Definition byStart (a b : TableSection) : Prop := start a <= start b.
Definition byEnd (a b : TableSection) : Prop := end_ a <= end_ b.

(** No offset of the text is in both regions. *)
Definition disjoint (a b : TableSection) : Prop :=
  forall k, ~ (start a <= k < end_ a /\ start b <= k < end_ b).


(* ------------------------------------------------------------------ *)
(** ** Merging, as the specification words it

    The sorted regions are cut into runs: two regions that follow one
    another stay in one run exactly when the gap from the end of the
    earlier to the start of the later is at most 50.  Each run becomes
    one region, from the start of its first region to the largest end,
    with the headers joined by a comma and a space. *)

(** The gap from the end of the earlier region to the start of the
    later. *)
Definition gap (a b : TableSection) : Z := start b - end_ a.

(** The runs of a sorted list of regions; a run is its first region
    and the regions after it. *)
Fixpoint groupRuns (l : list TableSection)
    : list (TableSection * list TableSection) :=
  match l with
  | [] => []
  | a :: l' =>
      match groupRuns l' with
      | (b, run) :: runs =>
          if gap a b <=? 50 then (a, b :: run) :: runs
          else (a, []) :: (b, run) :: runs
      | [] => [(a, [])]
      end
  end.

(** The one region a run becomes. *)
Definition fuse (run : TableSection * list TableSection) : TableSection :=
  let (a, others) := run in
  {| start := start a;
     end_ := fold_left Z.max (map end_ others) (end_ a);
     header := header a ++ concat (map (fun s => lit ", " ++ header s) others) |}.

(* ------------------------------------------------------------------ *)
(** ** Inputs of the examples *)

(** The scenario of the specification: a paragraph, a caption, a table
    of three rows, a paragraph. *)
Definition scenario : jsstring :=
  lit "Intro paragraph." ++ [nl; nl] ++ lit "Table 2.1" ++ [nl]
  ++ lit "| Rate | Term |" ++ [nl] ++ lit "|------|------|" ++ [nl]
  ++ lit "| 3.5% | 30yr |" ++ [nl; nl] ++ lit "Closing paragraph.".

(** Two rows of a table. *)
Definition twoRows : jsstring := lit "|a|" ++ [nl] ++ lit "|b|".

(** One line with three captions and pipe-delimited cells. *)
Definition captions : jsstring :=
  lit "Table 1.1 | a | Schedule AB rates | - | b | Exhibit 9 follows after a long run of filler words, Table 2.3".

(** A stand-in for the generic splitter in the examples: every text
    that is not empty becomes one document. *)
Definition wholeTexts (p : TextSplitterParams) (texts : list jsstring)
    : list Document :=
  flat_map (fun s => match s with
                     | [] => []
                     | _ :: _ => [mkDocument s []]
                     end) texts.

(* ------------------------------------------------------------------ *)
(** ** The document processor and the upload route

    [BankingDocumentProcessor] and the [POST] handler that calls it.
    What they do to the outside (identifiers, the clock, the embedding
    service, the two tables, the console) is kept as the list of the
    events so far; what the outside answers is a function of that
    list.  A call either returns, throws, or hangs in the splitter. *)

(** [a === b] on strings. *)
Definition streq (a b : jsstring) : bool :=
  if list_eq_dec N.eq_dec a b then true else false.

(** [s.split(sep)] for a separator of one character. *)
Fixpoint split (sep : char) (s : jsstring) : list jsstring :=
  match s with
  | [] => [[]]
  | c :: s' =>
      if N.eqb c sep then [] :: split sep s'
      else match split sep s' with
           | seg :: rest => (c :: seg) :: rest
           | [] => [[c]]
           end
  end.

(** [array.pop()] as far as its result goes: the last element, or
    [undefined]. *)
Fixpoint pop {A} (l : list A) : option A :=
  match l with
  | [] => None
  | [x] => Some x
  | _ :: l' => pop l'
  end.

(** [array.slice(a, b)] *)
Definition arraySlice {A} (l : list A) (a b : Z) : list A :=
  let n := Z.of_nat (length l) in
  firstn (Z.to_nat (relIndex n b - relIndex n a)) (skipn (Z.to_nat (relIndex n a)) l).

(** The fields of [standardSplitter]. *)
Definition standardParams : TextSplitterParams :=
  {| chunkSize := 1000;
     chunkOverlap := 200;
     separators := [[nl; nl]; [nl]; lit " "; []] |}.

(** [isBankingDocument] *)
Definition isBankingDocument (documentType : jsstring) : bool :=
  existsb (streq documentType)
    [lit "loan_handbook"; lit "regulatory_manual"; lit "policy_document";
     lit "rate_sheet"; lit "compliance_matrix"].

(** A row of the table [documents]. *)
Record DocumentRow : Type := mkDocumentRow {
  row_id : jsstring;
  row_title : jsstring;
  row_document_type : jsstring;
  row_status : jsstring;
  row_metadata : list (String.string * value);
  row_created_at : jsstring;
  row_updated_at : jsstring
}.

(** A row of the table [document_chunks]; [chunk_embedding] is the
    result of [JSON.stringify], [None] for [undefined]. *)
Record ChunkRow : Type := mkChunkRow {
  chunk_id : jsstring;
  chunk_document_id : jsstring;
  chunk_content : jsstring;
  chunk_embedding : option jsstring;
  chunk_index : Z;
  chunk_metadata : list (String.string * value);
  chunk_created_at : jsstring
}.

Section Processor.

(** Values of the libraries that the code only passes on: what they
    throw or report as error, file contents, embedding vectors. *)
Variables Foreign Buffer Embedding : Type.

(** What can be thrown: an [Error] made by the code, or a value of a
    library. *)
Inductive Thrown : Type :=
| ErrorObject (message : jsstring)
| ForeignValue (e : Foreign).

(** What the code does to the outside. *)
Inductive Event : Type :=
| Uuid                                        (* uuidv4() *)
| Now                                         (* new Date() *)
| InsertDocuments (rows : list DocumentRow)   (* from('documents').insert *)
| EmbedDocuments (texts : list jsstring)      (* embeddings.embedDocuments *)
| InsertChunks (rows : list ChunkRow)         (* from('document_chunks').insert *)
| ConsoleLog (message : jsstring)
| ConsoleError (label : jsstring) (e : Thrown).

(** What the outside answers, given the events up to and with the
    call, and the pure functions of the libraries. *)
Record Environment : Type := mkEnvironment {
  uuidv4 : list Event -> jsstring;
  toISOString : list Event -> jsstring;
  documentsInsertError : list Event -> option Foreign;
  chunksInsertError : list Event -> option Foreign;
  embedDocumentsResult : list Event -> Foreign + list Embedding;
  stringify : Embedding -> jsstring;
  pdfParse : Buffer -> Foreign + jsstring;
  extractRawText : Buffer -> Foreign + jsstring;
  toStringUtf8 : Buffer -> jsstring;
  toLowerCase : jsstring -> jsstring;
  foreignToString : Foreign -> jsstring;
  createDocuments : TextSplitterParams -> list jsstring -> list Document
}.

(** The events so far and the splitter of the processor, whose patterns
    carry state. *)
Record World : Type := mkWorld {
  history : list Event;
  tableSplitter : BankingDocumentSplitter
}.

Inductive Outcome (A : Type) : Type :=
| Returned (a : A) (w : World)
| Threw (e : Thrown) (w : World)
| Hangs (w : World).

Arguments Returned {A}.
Arguments Threw {A}.
Arguments Hangs {A}.

Definition M (A : Type) : Type := World -> Outcome A.

Definition ret {A} (a : A) : M A := fun w => Returned a w.

Definition throw {A} (e : Thrown) : M A := fun w => Threw e w.

Definition bind {A B} (c : M A) (k : A -> M B) : M B :=
  fun w => match c w with
           | Returned a w' => k a w'
           | Threw e w' => Threw e w'
           | Hangs w' => Hangs w'
           end.

(** [try { c } catch (error) { handler }] *)
Definition tryCatch {A} (c : M A) (handler : Thrown -> M A) : M A :=
  fun w => match c w with
           | Returned a w' => Returned a w'
           | Threw e w' => handler e w'
           | Hangs w' => Hangs w'
           end.

(** A call to the outside: the event is added, the answer is read off
    the events. *)
Definition call {A} (ev : Event) (answer : list Event -> A) : M A :=
  fun w => let h := history w ++ [ev] in
           Returned (answer h) (mkWorld h (tableSplitter w)).

Notation "x <- c ;; k" := (bind c (fun x => k))
  (at level 61, c at next level, right associativity).
Notation "c ;;; k" := (bind c (fun _ => k))
  (at level 61, right associativity).

Variable env : Environment.

(** How long the splitter is waited for. *)
Variable fuel : nat.

(** [`${error}`] *)
Definition templateOf (e : Thrown) : jsstring :=
  match e with
  | ErrorObject [] => lit "Error"
  | ErrorObject message => lit "Error: " ++ message
  | ForeignValue f => foreignToString env f
  end.

(** A promise of a library awaited: its value, or what it rejects
    with thrown. *)
Definition await {A} (r : Foreign + A) : M A :=
  match r with
  | inl e => throw (ForeignValue e)
  | inr a => ret a
  end.

(** [extractText] *)
Definition extractText (fileBuffer : Buffer) (fileName : jsstring) : M jsstring :=
  let extension := pop (split 46%N (toLowerCase env fileName)) in
  let case (s : jsstring) :=
    match extension with
    | Some e => streq e s
    | None => false
    end in
  if case (lit "pdf") then await (pdfParse env fileBuffer)
  else if case (lit "docx") || case (lit "doc")
  then await (extractRawText env fileBuffer)
  else if case (lit "txt") then ret (toStringUtf8 env fileBuffer)
  else throw (ErrorObject
                (lit "Unsupported file type: "
                 ++ match extension with
                    | Some e => e
                    | None => lit "undefined"
                    end)).

(** [createDocumentRecord] *)
Definition createDocumentRecord (id title documentType : jsstring)
    (metadata : list (String.string * value)) : M unit :=
  created_at <- call Now (toISOString env) ;;
  updated_at <- call Now (toISOString env) ;;
  error <- call (InsertDocuments
                   [mkDocumentRow id title documentType (lit "active")
                      metadata created_at updated_at])
                (documentsInsertError env) ;;
  match error with
  | Some e => throw (ForeignValue e)
  | None => ret tt
  end.

(** [createChunks] *)
Definition createChunks (text documentType : jsstring) : M (list Document) :=
  if isBankingDocument documentType then
    fun w =>
      match splitTextIntoDocuments (createDocuments env) fuel
              (tableSplitter w) text with
      | Some (chunks, this') => Returned chunks (mkWorld (history w) this')
      | None => Hangs w
      end
  else ret (createDocuments env standardParams [text]).

(** [embedDocuments] of [BankingOllamaEmbeddings] *)
Definition embedDocuments (texts : list jsstring) : M (list Embedding) :=
  r <- call (EmbedDocuments texts) (embedDocumentsResult env) ;;
  match r with
  | inr embeddings => ret embeddings
  | inl e =>
      call (ConsoleError (lit "Error embedding documents:") (ForeignValue e))
           (fun _ => tt) ;;;
      throw (ErrorObject (lit "Failed to generate embeddings: "
                          ++ foreignToString env e))
  end.

(** [batch.map((chunk, index) => ...)] in [storeChunks], from [index]
    on. *)
Fixpoint chunkRecords (documentId : jsstring) (embeddings : list Embedding)
    (i : Z) (batch : list Document) (index : Z) : M (list ChunkRow) :=
  match batch with
  | [] => ret []
  | chunk :: rest =>
      id <- call Uuid (uuidv4 env) ;;
      created_at <- call Now (toISOString env) ;;
      rows <- chunkRecords documentId embeddings i rest (index + 1) ;;
      ret (mkChunkRow id documentId (pageContent chunk)
             (option_map (stringify env)
                (nth_error embeddings (Z.to_nat index)))
             (i + index) (metadata chunk) created_at
           :: rows)
  end.

(** The loop of [storeChunks]; it is left after at most as many rounds
    as there are chunks. *)
Fixpoint storeLoop (rounds : nat) (documentId : jsstring)
    (chunks : list Document) (i : Z) : M unit :=
  match rounds with
  | O => ret tt
  | S rounds' =>
      if i <? Z.of_nat (length chunks) then
        let batch := arraySlice chunks i (i + 10) in
        let texts := map pageContent batch in
        embeddings <- embedDocuments texts ;;
        chunkRows <- chunkRecords documentId embeddings i batch 0 ;;
        error <- call (InsertChunks chunkRows) (chunksInsertError env) ;;
        match error with
        | Some e => throw (ForeignValue e)
        | None => storeLoop rounds' documentId chunks (i + 10)
        end
      else ret tt
  end.

(** [storeChunks] *)
Definition storeChunks (documentId : jsstring) (chunks : list Document) : M unit :=
  storeLoop (length chunks) documentId chunks 0.

(** [processDocument] *)
Definition processDocument (fileBuffer : Buffer)
    (fileName documentType : jsstring)
    (metadata : list (String.string * value)) : M jsstring :=
  tryCatch
    (text <- extractText fileBuffer fileName ;;
     documentId <- call Uuid (uuidv4 env) ;;
     createDocumentRecord documentId fileName documentType metadata ;;;
     chunks <- createChunks text documentType ;;
     storeChunks documentId chunks ;;;
     ret documentId)
    (fun error =>
       call (ConsoleError (lit "Document processing error:") error)
            (fun _ => tt) ;;;
       throw (ErrorObject (lit "Failed to process document: "
                           ++ templateOf error))).

(** The file of an upload. *)
Record File : Type := mkFile {
  file_name : jsstring;
  file_type : jsstring;
  file_size : Z;
  file_arrayBuffer : Buffer
}.

(** The fields of the form the handler reads; [None] is [null]. *)
Record UploadForm : Type := mkUploadForm {
  form_file : option File;
  form_documentType : option jsstring;
  form_version : option jsstring;
  form_effectiveDate : option jsstring
}.

Inductive Body : Type :=
| ErrorBody (error : jsstring)
| SuccessBody (documentId message : jsstring).

Record Response : Type := mkResponse {
  status : Z;
  body : Body
}.

(** [value || fallback] on a string that may be [null]. *)
Definition orElse (v : option jsstring) (fallback : jsstring) : jsstring :=
  match v with
  | Some (_ :: _ as s) => s
  | _ => fallback
  end.

Definition allowedTypes : list jsstring :=
  [lit "application/pdf";
   lit "application/vnd.openxmlformats-officedocument.wordprocessingml.document";
   lit "application/msword";
   lit "text/plain"].

Definition maxSize : Z := 10 * 1024 * 1024.

(** The handler [POST] of the upload route, from the form data the
    request gives or what reading them throws. *)
Definition POST (formData : Thrown + UploadForm) : M Response :=
  tryCatch
    (match formData with
     | inl e => throw e
     | inr form =>
         match form_file form with
         | None => ret (mkResponse 400 (ErrorBody (lit "No file provided")))
         | Some file =>
             match form_documentType form with
             | None | Some [] =>
                 ret (mkResponse 400 (ErrorBody (lit "Document type is required")))
             | Some documentType =>
                 if negb (existsb (streq (file_type file)) allowedTypes) then
                   ret (mkResponse 400
                          (ErrorBody (lit "Unsupported file type. Please upload PDF, DOCX, or TXT files.")))
                 else if maxSize <? file_size file then
                   ret (mkResponse 400
                          (ErrorBody (lit "File too large. Maximum size is 10MB.")))
                 else
                   effective_date <-
                     match form_effectiveDate form with
                     | Some (_ :: _ as d) => ret d
                     | _ =>
                         iso <- call Now (toISOString env) ;;
                         ret (hd [] (split 84%N iso))
                     end ;;
                   let metadata :=
                     [("uploaded_by"%string, VStr (lit "anonymous"));
                      ("file_size"%string, VNum (file_size file));
                      ("file_type"%string, VStr (file_type file));
                      ("version"%string, VStr (orElse (form_version form) (lit "1.0")));
                      ("effective_date"%string, VStr effective_date)] in
                   call (ConsoleLog (lit "Processing document: " ++ file_name file))
                        (fun _ => tt) ;;;
                   documentId <- processDocument (file_arrayBuffer file)
                                   (file_name file) documentType metadata ;;
                   call (ConsoleLog (lit "Document processed successfully: "
                                     ++ documentId))
                        (fun _ => tt) ;;;
                   ret (mkResponse 200
                          (SuccessBody documentId
                             (lit "Document uploaded and processed successfully")))
             end
         end
     end)
    (fun error =>
       call (ConsoleError (lit "Document upload error:") error) (fun _ => tt) ;;;
       ret (mkResponse 500 (ErrorBody (lit "Failed to process document")))).

End Processor.

Arguments Returned {Foreign A}.
Arguments Threw {Foreign A}.
Arguments Hangs {Foreign A}.
Arguments ErrorObject {Foreign}.
Arguments ForeignValue {Foreign}.

Arguments history {Foreign}.
Arguments tableSplitter {Foreign}.
Arguments mkWorld {Foreign}.
Arguments form_file {Buffer}.
Arguments form_documentType {Buffer}.
Arguments form_version {Buffer}.
Arguments form_effectiveDate {Buffer}.
Arguments file_name {Buffer}.
Arguments file_type {Buffer}.
Arguments file_size {Buffer}.
Arguments file_arrayBuffer {Buffer}.
Arguments mkFile {Buffer}.
Arguments mkUploadForm {Buffer}.
Arguments uuidv4 {Foreign Buffer Embedding}.
Arguments toISOString {Foreign Buffer Embedding}.
Arguments documentsInsertError {Foreign Buffer Embedding}.
Arguments chunksInsertError {Foreign Buffer Embedding}.
Arguments embedDocumentsResult {Foreign Buffer Embedding}.
Arguments stringify {Foreign Buffer Embedding}.
Arguments pdfParse {Foreign Buffer Embedding}.
Arguments extractRawText {Foreign Buffer Embedding}.
Arguments toStringUtf8 {Foreign Buffer Embedding}.
Arguments toLowerCase {Foreign Buffer Embedding}.
Arguments foreignToString {Foreign Buffer Embedding}.
Arguments createDocuments {Foreign Buffer Embedding}.
Arguments ret {Foreign A}.
Arguments throw {Foreign A}.
Arguments bind {Foreign A B}.
Arguments tryCatch {Foreign A}.
Arguments call {Foreign A}.
Arguments templateOf {Foreign Buffer Embedding}.
Arguments await {Foreign A}.
Arguments extractText {Foreign Buffer Embedding}.
Arguments createDocumentRecord {Foreign Buffer Embedding}.
Arguments createChunks {Foreign Buffer Embedding}.
Arguments embedDocuments {Foreign Buffer Embedding}.
Arguments chunkRecords {Foreign Buffer Embedding}.
Arguments storeLoop {Foreign Buffer Embedding}.
Arguments storeChunks {Foreign Buffer Embedding}.
Arguments processDocument {Foreign Buffer Embedding}.
Arguments POST {Foreign Buffer Embedding}.

(** The world an outcome leaves. *)
Definition worldOf {Foreign A} (o : Outcome Foreign A) : World Foreign :=
  match o with
  | Returned _ w | Threw _ w | Hangs w => w
  end.

(** The rows the events ask [document_chunks] to insert, in order. *)
Fixpoint insertedChunks {Foreign} (events : list (Event Foreign))
    : list ChunkRow :=
  match events with
  | [] => []
  | InsertChunks _ rows :: rest => rows ++ insertedChunks rest
  | _ :: rest => insertedChunks rest
  end.

(** The event asks one of the services for something: the embedding
    service or a table. *)
Definition reachesService {Foreign} (ev : Event Foreign) : bool :=
  match ev with
  | InsertDocuments _ _ | EmbedDocuments _ _ | InsertChunks _ _ => true
  | Uuid _ | Now _ | ConsoleLog _ _ | ConsoleError _ _ _ => false
  end.

(** An environment for the examples: the identifier and the time tell
    how many events there were, nothing fails, and the names of files
    are taken as lower case already. *)
Definition calmEnvironment : Environment unit jsstring Z :=
  {| uuidv4 := fun h => lit "id-" ++ repeat 105%N (length h);
     toISOString := fun h => lit "2024-01-01T00:00:0" ++ [N.of_nat (48 + length h mod 10)];
     documentsInsertError := fun _ => None;
     chunksInsertError := fun _ => None;
     embedDocumentsResult := fun h =>
       match rev h with
       | EmbedDocuments _ texts :: _ => inr (map len texts)
       | _ => inr []
       end;
     stringify := fun z => [N.of_nat (48 + Z.to_nat z mod 10)];
     pdfParse := fun b => inr b;
     extractRawText := fun b => inr b;
     toStringUtf8 := fun b => b;
     toLowerCase := fun s => s;
     foreignToString := fun _ => lit "[object Object]";
     createDocuments := wholeTexts |}.

(** The world of a processor just made. *)
Definition newWorld {Foreign} : World Foreign :=
  mkWorld [] newBankingDocumentSplitter.

(* ------------------------------------------------------------------ *)
(** ** Notions for the properties of the code beyond the specification *)

(** The character [|]. *)
Definition pipe : char := 124%N.

(** A continuation that does not look at the character before the
    position. *)
Definition blind (k : option char -> jsstring -> option nat) : Prop :=
  forall p1 p2 s, k p1 s = k p2 s.

(** A pattern of the list matches at the offset of the text, and not
    the empty string. *)
Definition matchAt (text : jsstring) (patterns : list RegExp.t) (e : Z) : Prop :=
  0 <= e
  /\ exists p n,
       In p patterns
       /\ RegExp.run (RegExp.multiline p) (RegExp.source p)
            (RegExp.before text e) (skipn (Z.to_nat e) text) = Some n
       /\ (1 <= n)%nat.

(** What a list of events asked [document_chunks] to insert, against
    the chunks from offset [i] on: the same texts in the same order,
    numbered from [i], all under the document. *)
Definition rowsFollow (documentId : jsstring) (chunks : list Document) (i : Z)
    (rows : list ChunkRow) : Prop :=
  map chunk_content rows
  = firstn (length rows) (map pageContent (skipn (Z.to_nat i) chunks))
  /\ map chunk_metadata rows
     = firstn (length rows) (map metadata (skipn (Z.to_nat i) chunks))
  /\ map chunk_index rows = map (fun k => i + Z.of_nat k) (seq 0 (length rows))
  /\ Forall (fun r => chunk_document_id r = documentId) rows.

(** Every insert into [document_chunks] carries one to ten rows. *)
Definition batchesOfTen {Foreign} (evs : list (Event Foreign)) : Prop :=
  Forall (fun ev => match ev with
                    | InsertChunks _ rows =>
                        (1 <= length rows <= 10)%nat
                    | _ => True
                    end) evs.

(** The row [createDocumentRecord] asks [documents] to insert. *)
Definition documentRowAt {Foreign Buffer Embedding}
    (env : Environment Foreign Buffer Embedding) (h : list (Event Foreign))
    (id title documentType : jsstring)
    (metadata : list (String.string * value)) : DocumentRow :=
  mkDocumentRow id title documentType (lit "active") metadata
    (toISOString env (h ++ [Now Foreign]))
    (toISOString env ((h ++ [Now Foreign]) ++ [Now Foreign])).

(** The events of [processDocument] up to the row of the document:
    the identifier, two readings of the clock, the insert. *)
Definition recordEvents {Foreign Buffer Embedding}
    (env : Environment Foreign Buffer Embedding) (h : list (Event Foreign))
    (fileName documentType : jsstring)
    (metadata : list (String.string * value)) : list (Event Foreign) :=
  [Uuid Foreign; Now Foreign; Now Foreign;
   InsertDocuments Foreign
     [documentRowAt env (h ++ [Uuid Foreign]) (uuidv4 env (h ++ [Uuid Foreign]))
        fileName documentType metadata]].

(** An environment in which [document_chunks] reports an error once
    more than ten rows were asked for. *)
Definition stormyEnvironment : Environment unit jsstring Z :=
  {| uuidv4 := uuidv4 calmEnvironment;
     toISOString := toISOString calmEnvironment;
     documentsInsertError := fun _ => None;
     chunksInsertError := fun h =>
       if (10 <? length (insertedChunks h))%nat then Some tt else None;
     embedDocumentsResult := embedDocumentsResult calmEnvironment;
     stringify := stringify calmEnvironment;
     pdfParse := fun b => inr b;
     extractRawText := fun b => inr b;
     toStringUtf8 := fun b => b;
     toLowerCase := fun s => s;
     foreignToString := fun _ => lit "[object Object]";
     createDocuments := wholeTexts |}.

(** Twelve chunks of one letter each. *)
Definition twelveChunks : list Document :=
  map (fun k => mkDocument [N.of_nat (97 + k)] []) (seq 0 12).

(** A text with a row of pipes on its second line. *)
Definition rateSheet : jsstring :=
  (lit "Rates" ++ [nl]) ++ pipe :: lit " 3.5% " ++ pipe :: lit " 30yr |".

(* ------------------------------------------------------------------ *)
(** ** Offsets in strings *)

Section Offsets.

Lemma len_cons (x : char) (s : jsstring) : len (x :: s) = len s + 1.
Proof. unfold len. cbn [length]. lia. Qed.

Lemma len_nonneg (s : jsstring) : 0 <= len s.
Proof. unfold len. lia. Qed.

Lemma lastIndexIn_app c a b i acc :
  lastIndexIn c (a ++ b) i acc = lastIndexIn c b (i + len a) (lastIndexIn c a i acc).
Proof.
  revert i acc. induction a as [|x a IH]; intros i acc; cbn [app lastIndexIn].
  - f_equal. unfold len. cbn. lia.
  - rewrite IH, len_cons. f_equal. lia.
Qed.

Lemma lastIndexIn_range c s : forall i acc,
  lastIndexIn c s i acc = acc
  \/ (i <= lastIndexIn c s i acc
      /\ nth_error s (Z.to_nat (lastIndexIn c s i acc - i)) = Some c).
Proof.
  induction s as [|x s IH]; intros i acc; cbn [lastIndexIn]; [now left|].
  destruct (IH (i + 1) (if N.eqb x c then i else acc)) as [E | [Hle Hnth]].
  - rewrite E. destruct (N.eqb_spec x c) as [->|_]; [right|now left].
    split; [lia|]. now rewrite Z.sub_diag.
  - right. split; [lia|].
    replace (Z.to_nat (lastIndexIn c s (i + 1) (if N.eqb x c then i else acc) - i))
      with (S (Z.to_nat (lastIndexIn c s (i + 1) (if N.eqb x c then i else acc) - (i + 1))))
      by lia.
    exact Hnth.
Qed.

(** A found [lastIndexOf] is an offset of the character. *)
Lemma lastIndexOf_found s c pos :
  lastIndexOf s c pos <> -1 ->
  0 <= lastIndexOf s c pos
  /\ nth_error s (Z.to_nat (lastIndexOf s c pos)) = Some c.
Proof.
  unfold lastIndexOf. intros Hk.
  destruct (lastIndexIn_range c (firstn (S (Z.to_nat (Z.max pos 0))) s) 0 (-1))
    as [E | [Hle Hnth]]; [contradiction|].
  split; [exact Hle|].
  rewrite Z.sub_0_r in Hnth. rewrite nth_error_firstn in Hnth.
  destruct (Nat.ltb _ _); [exact Hnth | discriminate].
Qed.

(** Searching backwards from an offset of the character finds it there. *)
Lemma lastIndexOf_at s c k :
  0 <= k -> nth_error s (Z.to_nat k) = Some c -> lastIndexOf s c k = k.
Proof.
  intros Hk Hnth. unfold lastIndexOf. rewrite Z.max_l by lia.
  destruct (nth_error_split _ _ Hnth) as (l1 & l2 & -> & Hlen).
  rewrite <- Hlen.
  replace (S (length l1)) with (length l1 + 1)%nat by lia.
  rewrite firstn_app_2. cbn [firstn].
  rewrite lastIndexIn_app. cbn [lastIndexIn]. rewrite N.eqb_refl.
  unfold len. lia.
Qed.

Lemma indexFrom_range c s : forall i,
  0 <= i ->
  indexFrom c s i = -1
  \/ (i <= indexFrom c s i
      /\ nth_error s (Z.to_nat (indexFrom c s i - i)) = Some c).
Proof.
  induction s as [|x s IH]; intros i Hi; cbn [indexFrom]; [now left|].
  destruct (N.eqb_spec x c) as [->|_].
  - right. split; [lia|]. now rewrite Z.sub_diag.
  - destruct (IH (i + 1)) as [E | [Hle Hnth]]; [lia | now left |].
    right. split; [lia|].
    replace (Z.to_nat (indexFrom c s (i + 1) - i))
      with (S (Z.to_nat (indexFrom c s (i + 1) - (i + 1)))) by lia.
    exact Hnth.
Qed.

(** A found [indexOf] is an offset of the character. *)
Lemma indexOf_found s c pos :
  indexOf s c pos <> -1 ->
  0 <= indexOf s c pos
  /\ nth_error s (Z.to_nat (indexOf s c pos)) = Some c.
Proof.
  unfold indexOf. intros Hk.
  pose proof (len_nonneg s) as Hl.
  set (k := Z.min (Z.max pos 0) (len s)) in *.
  assert (0 <= k) as Hk0 by lia.
  destruct (indexFrom_range c (skipn (Z.to_nat k) s) k Hk0)
    as [E | [Hle Hnth]]; [contradiction|].
  split; [lia|].
  rewrite nth_error_skipn in Hnth.
  replace (Z.to_nat (indexFrom c (skipn (Z.to_nat k) s) k))
    with (Z.to_nat k + Z.to_nat (indexFrom c (skipn (Z.to_nat k) s) k - k))%nat
    by lia.
  exact Hnth.
Qed.

(** [slice] between offsets of the string. *)
Lemma slice_inside s a b :
  0 <= a -> a <= len s -> 0 <= b -> b <= len s -> slice s a b = substr s a b.
Proof.
  intros. unfold slice, relIndex.
  destruct (Z.ltb_spec a 0); [lia|]. destruct (Z.ltb_spec b 0); [lia|].
  now rewrite !Z.min_l by lia.
Qed.

(** [slice] is empty when its end is not after its start. *)
Lemma slice_backwards s a b : 0 <= b -> b <= a -> slice s a b = [].
Proof.
  intros Hb Hab. unfold slice, relIndex, substr.
  destruct (Z.ltb_spec a 0); [lia|]. destruct (Z.ltb_spec b 0); [lia|].
  replace (Z.to_nat (Z.min b (len s) - Z.min a (len s))) with O by lia.
  reflexivity.
Qed.

Lemma substr_skipn s a b :
  0 <= a -> a <= b -> substr s a b ++ skipn (Z.to_nat b) s = skipn (Z.to_nat a) s.
Proof.
  intros Ha Hab. unfold substr.
  replace (Z.to_nat b) with (Z.to_nat (b - a) + Z.to_nat a)%nat by lia.
  rewrite <- skipn_skipn. apply firstn_skipn.
Qed.

End Offsets.

(* ------------------------------------------------------------------ *)
(** ** Lines *)

Section Lines.

Variable text : jsstring.

(** A line end before the end of the text is the offset of a newline. *)
Lemma findLineEnd_newline index :
  findLineEnd text index < len text ->
  0 <= findLineEnd text index
  /\ nth_error text (Z.to_nat (findLineEnd text index)) = Some nl.
Proof.
  unfold findLineEnd. cbv zeta.
  destruct (Z.eqb_spec (indexOf text nl index) (-1)) as [_|Hne]; [lia|].
  intros _. now apply indexOf_found.
Qed.

(** A line start after the start of the text follows a newline. *)
Lemma findLineStart_after_newline index :
  0 < findLineStart text index ->
  nth_error text (Z.to_nat (findLineStart text index - 1)) = Some nl.
Proof.
  unfold findLineStart. cbv zeta.
  destruct (Z.eqb_spec (lastIndexOf text nl index) (-1)) as [_|Hne]; [lia|].
  intros _. rewrite Z.add_simpl_r. now apply lastIndexOf_found.
Qed.

(** The line start found from the offset of a newline is the offset
    after it. *)
Lemma findLineStart_at_newline k :
  0 <= k -> nth_error text (Z.to_nat k) = Some nl ->
  findLineStart text k = k + 1.
Proof.
  intros Hk Hnth. unfold findLineStart. cbv zeta.
  rewrite (lastIndexOf_at _ _ _ Hk Hnth).
  destruct (Z.eqb_spec k (-1)); [lia | reflexivity].
Qed.

(** Looking for the start of the line before a line start finds the
    same line start again. *)
Lemma findLineStart_fixed index :
  0 < findLineStart text index ->
  findLineStart text (findLineStart text index - 1) = findLineStart text index.
Proof.
  intros Hpos. rewrite findLineStart_at_newline; [lia | lia |].
  now apply findLineStart_after_newline.
Qed.

End Lines.

(* ------------------------------------------------------------------ *)
(** ** Expansion of a seed *)

Lemma isTableLine_empty : isTableLine [] = false.
Proof. reflexivity. Qed.

(** The second loop never runs its body: the line it tests is the
    empty slice from after the newline back to the newline. *)
Lemma lookForwards_idle fuel text e index :
  lookForwards (S fuel) text e (findLineEnd text index) = Some e.
Proof.
  cbn [lookForwards].
  destruct (Z.ltb_spec (findLineEnd text index) (len text)) as [Hlt|_];
    [|reflexivity].
  destruct (findLineEnd_newline text index Hlt) as [H0 Hnl].
  rewrite (findLineStart_at_newline text _ H0 Hnl).
  rewrite slice_backwards by lia. now rewrite isTableLine_empty.
Qed.

(** The first loop, once its condition holds, tests the same line
    again and again. *)
Lemma lookBackwards_stuck text index : forall fuel s,
  stalls text index = true ->
  lookBackwards fuel text s (findLineStart text index) = None.
Proof.
  unfold stalls. cbv zeta. intros fuel s Hc.
  revert s. induction fuel as [|fuel IH]; intros s; [reflexivity|].
  cbn [lookBackwards]. rewrite Hc.
  apply andb_prop in Hc. destruct Hc as [Hpos _].
  apply Z.ltb_lt in Hpos.
  rewrite findLineStart_fixed by exact Hpos. apply IH.
Qed.

(** [expandTableContext] either does not return or returns the seed
    itself as both ends of the region. *)
Lemma expandTableContext_eq fuel text startIndex :
  expandTableContext (S fuel) text startIndex =
  if stalls text startIndex then None else Some (startIndex, startIndex).
Proof.
  unfold expandTableContext.
  destruct (stalls text startIndex) eqn:Hc.
  - now rewrite lookBackwards_stuck.
  - rewrite lookForwards_idle. cbn [lookBackwards].
    unfold stalls in Hc. cbv zeta in Hc. now rewrite Hc.
Qed.

Lemma expandTableContext_degenerate fuel text startIndex s e :
  expandTableContext fuel text startIndex = Some (s, e) ->
  s = startIndex /\ e = startIndex.
Proof.
  destruct fuel as [|fuel]; [discriminate|].
  rewrite expandTableContext_eq.
  destruct (stalls text startIndex); [discriminate|].
  intros [= <- <-]. now split.
Qed.

Lemma expandTableContext_mono fuel fuel' text startIndex r :
  (fuel <= fuel')%nat ->
  expandTableContext fuel text startIndex = Some r ->
  expandTableContext fuel' text startIndex = Some r.
Proof.
  intros Hle. destruct fuel as [|fuel]; [discriminate|].
  destruct fuel' as [|fuel']; [lia|].
  now rewrite !expandTableContext_eq.
Qed.

(* ------------------------------------------------------------------ *)
(** ** Matches and the state of the patterns *)

Section Exec.
Import RegExp.

(** A match is found at or after the offset the search starts at, and
    not after the end of the text. *)
Lemma search_range m r : forall s prev i j n,
  search m r prev s i = Some (j, n) -> i <= j <= i + len s.
Proof.
  induction s as [|c s IH]; intros prev i j n; cbn [search].
  - destruct (run m r prev []); [|discriminate].
    intros [= <- _]. unfold len. cbn. lia.
  - destruct (run m r prev (c :: s)).
    + intros [= <- _]. pose proof (len_nonneg (c :: s)). lia.
    + intros H. apply IH in H. rewrite len_cons. lia.
Qed.

Lemma searchAt_range re s from j n :
  0 <= from <= len s ->
  searchAt re s from = Some (j, n) -> 0 <= j <= len s.
Proof.
  unfold searchAt. intros Hf H. apply search_range in H.
  assert (len (skipn (Z.to_nat from) s) = len s - from) as E.
  { unfold len in *. rewrite length_skipn. lia. }
  lia.
Qed.

(** [match.index] is an offset of the text. *)
Lemma exec_index re s m re' :
  exec re s = (Some m, re') -> 0 <= index m <= len s.
Proof.
  unfold exec. pose proof (len_nonneg s) as Hl.
  destruct (global re).
  - destruct (Z.ltb_spec (len s) (lastIndex re)); [discriminate|].
    destruct (searchAt re s (Z.max (lastIndex re) 0)) as [[j n]|] eqn:E;
      [|discriminate].
    intros [= <- _]. cbn. apply searchAt_range in E; lia.
  - destruct (searchAt re s 0) as [[j n]|] eqn:E; [|discriminate].
    intros [= <- _]. cbn. apply searchAt_range in E; lia.
Qed.

(** The object after [exec]: under [g] only [lastIndex] changed. *)
Lemma exec_object re s r re' :
  exec re s = (r, re') ->
  source re' = source re /\ global re' = global re
  /\ multiline re' = multiline re
  /\ (global re = false -> re' = re)
  /\ (global re = true -> r = None -> lastIndex re' = 0).
Proof.
  unfold exec. destruct (global re) eqn:G.
  - destruct (len s <? lastIndex re).
    + intros [= <- <-]. cbn. repeat split; auto; discriminate.
    + destruct (searchAt re s (Z.max (lastIndex re) 0)) as [[j n]|].
      * intros [= <- <-]. cbn. repeat split; auto; discriminate.
      * intros [= <- <-]. cbn. repeat split; auto; discriminate.
  - destruct (searchAt re s 0) as [[j n]|]; intros [= <- <-];
      repeat split; auto; discriminate.
Qed.

Lemma object_ext re re' :
  source re' = source re -> global re' = global re ->
  multiline re' = multiline re -> lastIndex re' = lastIndex re -> re' = re.
Proof. destruct re, re'; cbn; intros; subst; reflexivity. Qed.

End Exec.

Section Detection.

Variable text : jsstring.

(** More fuel does not change what the loop of a pattern returns. *)
Lemma execLoop_mono : forall fuel fuel' pattern sections r,
  (fuel <= fuel')%nat ->
  execLoop fuel text pattern sections = Some r ->
  execLoop fuel' text pattern sections = Some r.
Proof.
  induction fuel as [|fuel IH]; intros fuel' pattern sections r Hle;
    [discriminate|].
  destruct fuel' as [|fuel']; [lia|]. cbn [execLoop].
  destruct (RegExp.exec pattern text) as [[m|] pattern']; [|trivial].
  destruct (expandTableContext fuel text (RegExp.index m)) as [[s e]|] eqn:E;
    [|discriminate].
  rewrite (expandTableContext_mono fuel fuel' text _ (s, e)) by (lia || exact E).
  apply IH. lia.
Qed.

(** When the loop of a pattern ends, the sections it pushed are seeded
    and the pattern is left with [lastIndex] 0. *)
Lemma execLoop_result : forall fuel pattern sections sections' pattern',
  execLoop fuel text pattern sections = Some (sections', pattern') ->
  (exists new, sections' = sections ++ new /\ Forall (seeded text) new)
  /\ RegExp.source pattern' = RegExp.source pattern
  /\ RegExp.global pattern' = RegExp.global pattern
  /\ RegExp.multiline pattern' = RegExp.multiline pattern
  /\ (RegExp.global pattern = true -> RegExp.lastIndex pattern' = 0)
  /\ (RegExp.global pattern = false -> pattern' = pattern).
Proof.
  induction fuel as [|fuel IH]; intros pattern sections sections' pattern';
    [discriminate|].
  cbn [execLoop].
  destruct (RegExp.exec pattern text) as [[m|] p1] eqn:Ex.
  - destruct (expandTableContext fuel text (RegExp.index m)) as [[s e]|] eqn:E;
      [|discriminate].
    intros H. apply IH in H.
    destruct H as ((new & -> & Hnew) & Hs & Hg & Hm & Hl & Hn).
    destruct (exec_object _ _ _ _ Ex) as (Hs1 & Hg1 & Hm1 & Hn1 & _).
    apply expandTableContext_degenerate in E. destruct E as [-> ->].
    pose proof (exec_index _ _ _ _ Ex) as Hidx.
    split; [|repeat split; try congruence].
    + exists (mkSection (RegExp.index m) (RegExp.index m) (RegExp.matched m) :: new).
      split; [now rewrite <- app_assoc|].
      constructor; [|exact Hnew]. split; [exact Hidx | reflexivity].
    + intros G. apply Hl. congruence.
    + intros G. rewrite Hn by congruence. now apply Hn1.
  - intros [= <- <-].
    destruct (exec_object _ _ _ _ Ex) as (Hs1 & Hg1 & Hm1 & Hn1 & Hl1).
    split; [|repeat split; auto].
    exists []. split; [now rewrite app_nil_r | constructor].
Qed.

Lemma forPatterns_mono fuel fuel' : forall patterns sections r,
  (fuel <= fuel')%nat ->
  forPatterns fuel text patterns sections = Some r ->
  forPatterns fuel' text patterns sections = Some r.
Proof.
  induction patterns as [|p ps IH]; intros sections r Hle; [trivial|].
  cbn [forPatterns].
  destruct (execLoop fuel text p sections) as [[s1 p1]|] eqn:E; [|discriminate].
  rewrite (execLoop_mono _ _ _ _ _ Hle E).
  destruct (forPatterns fuel text ps s1) as [[s2 ps2]|] eqn:E2; [|discriminate].
  now rewrite (IH _ _ Hle E2).
Qed.

(** When the loop over the patterns ends, every section is seeded and
    every pattern that had [lastIndex] 0 is as it was. *)
Lemma forPatterns_result fuel : forall patterns sections sections' patterns',
  forPatterns fuel text patterns sections = Some (sections', patterns') ->
  (Forall (seeded text) sections -> Forall (seeded text) sections')
  /\ (Forall (fun p => RegExp.lastIndex p = 0) patterns -> patterns' = patterns).
Proof.
  induction patterns as [|p ps IH]; intros sections sections' patterns';
    cbn [forPatterns].
  - intros [= <- <-]. now split.
  - destruct (execLoop fuel text p sections) as [[s1 p1]|] eqn:E; [|discriminate].
    destruct (forPatterns fuel text ps s1) as [[s2 ps2]|] eqn:E2; [|discriminate].
    intros [= <- <-].
    apply execLoop_result in E.
    destruct E as ((new & -> & Hnew) & Hs & Hg & Hm & Hl & Hn).
    apply IH in E2. destruct E2 as [Hsec Hpat]. split.
    + intros Hall. apply Hsec. apply Forall_app. now split.
    + intros Hall. apply Forall_cons_iff in Hall. destruct Hall as [H0 Hrest].
      rewrite (Hpat Hrest). f_equal.
      destruct (RegExp.global p) eqn:G; [|now apply Hn].
      apply object_ext; [exact Hs | congruence | exact Hm |].
      rewrite H0. now apply Hl.
Qed.

End Detection.

(* ------------------------------------------------------------------ *)
(** ** Sorting and merging *)

Section Sorting.

Variable P : TableSection -> Prop.

Lemma insertByStart_Forall x l :
  P x -> Forall P l -> Forall P (insertByStart x l).
Proof.
  intros Hx. induction 1 as [|y l Hy Hl IH]; cbn [insertByStart].
  - now repeat constructor.
  - destruct (start x <=? start y); repeat (constructor; auto).
Qed.

Lemma sortByStart_Forall l : Forall P l -> Forall P (sortByStart l).
Proof.
  induction 1 as [|x l Hx Hl IH]; cbn [sortByStart]; [constructor|].
  now apply insertByStart_Forall.
Qed.

End Sorting.

Lemma insertByStart_HdRel a x l :
  byStart a x -> HdRel byStart a l -> HdRel byStart a (insertByStart x l).
Proof.
  intros Hax Hal. destruct l as [|y l]; cbn [insertByStart].
  - now constructor.
  - destruct (start x <=? start y); constructor; auto.
    now inversion Hal.
Qed.

Lemma insertByStart_Sorted x l :
  Sorted byStart l -> Sorted byStart (insertByStart x l).
Proof.
  induction 1 as [|y l Hl IH Hy]; cbn [insertByStart].
  - now repeat constructor.
  - destruct (Z.leb_spec (start x) (start y)).
    + constructor; [now constructor | now constructor].
    + constructor; [exact IH|].
      apply insertByStart_HdRel; [unfold byStart; lia | exact Hy].
Qed.

Lemma sortByStart_Sorted l : Sorted byStart (sortByStart l).
Proof.
  induction l as [|x l IH]; cbn [sortByStart]; [constructor|].
  now apply insertByStart_Sorted.
Qed.

(** Seeded sections sorted by [start] are sorted by [end] too. *)
Lemma seeded_Sorted_byEnd text l :
  Forall (seeded text) l -> Sorted byStart l -> Sorted byEnd l.
Proof.
  intros Hall Hs. induction Hs as [|a l Hl IH Ha]; [constructor|].
  apply Forall_cons_iff in Hall. destruct Hall as [Hsa Hsl].
  constructor; [now apply IH|].
  destruct Ha as [|b l Hab]; constructor.
  apply Forall_cons_iff in Hsl. destruct Hsl as [Hsb _].
  unfold byEnd, byStart, seeded in *. lia.
Qed.

Lemma seeded_bounded text r : seeded text r -> bounded (len text) r.
Proof. unfold seeded, bounded. lia. Qed.

Lemma StronglySorted_snoc {A} (R : A -> A -> Prop) l a :
  StronglySorted R l -> Forall (fun x => R x a) l ->
  StronglySorted R (l ++ [a]).
Proof.
  induction 1 as [|x l Hl IH Hx]; intros Hall; cbn [app].
  - repeat constructor.
  - apply Forall_cons_iff in Hall. destruct Hall as [Hxa Hla].
    constructor; [now apply IH|].
    apply Forall_app. split; [exact Hx | now constructor].
Qed.

Section Merging.

Variable hi : Z.

Lemma absorb_bounded last current :
  bounded hi last -> bounded hi current -> bounded hi (absorb last current).
Proof. unfold bounded, absorb. cbn. lia. Qed.

(** The merged array is kept in order with every section more than the
    tolerance after the one before it: a section is pushed only when
    it starts that far after [last], and [last] is never looked at
    again once another section has been pushed. *)
Lemma mergeLoop_apart : forall rest done last,
  StronglySorted apart done ->
  Forall (fun x => apart x last) done ->
  Forall (bounded hi) done -> bounded hi last -> Forall (bounded hi) rest ->
  StronglySorted apart (mergeLoop done last rest)
  /\ Forall (bounded hi) (mergeLoop done last rest).
Proof.
  induction rest as [|current rest IH]; intros done last Hs Hd Hbd Hbl Hbr;
    cbn [mergeLoop].
  - split; [now apply StronglySorted_snoc|].
    apply Forall_app. split; [exact Hbd | now constructor].
  - apply Forall_cons_iff in Hbr. destruct Hbr as [Hbc Hbr].
    destruct (Z.leb_spec (start current) (end_ last + 50)) as [Hle|Hgt].
    + apply IH; auto using absorb_bounded.
    + apply IH; auto.
      * now apply StronglySorted_snoc.
      * apply Forall_app. split; [|constructor; [exact Hgt | constructor]].
        eapply Forall_impl; [|exact Hd]. unfold apart, bounded in *.
        intros x Hx. cbv beta in Hx. lia.
      * apply Forall_app. split; [exact Hbd | now constructor].
Qed.

Lemma mergeOverlappingSections_apart sections :
  Forall (bounded hi) sections ->
  StronglySorted apart (mergeOverlappingSections sections)
  /\ Forall (bounded hi) (mergeOverlappingSections sections).
Proof.
  intros Hall. unfold mergeOverlappingSections.
  apply sortByStart_Forall in Hall.
  destruct (sortByStart sections) as [|first rest]; [split; constructor|].
  apply Forall_cons_iff in Hall. destruct Hall as [Hf Hr].
  apply mergeLoop_apart; auto; constructor.
Qed.

End Merging.

Lemma groupRuns_head a l :
  exists run runs, groupRuns (a :: l) = (a, run) :: runs.
Proof.
  cbn [groupRuns]. destruct (groupRuns l) as [|[b run] runs]; [now eexists _, _|].
  destruct (gap a b <=? 50); now eexists _, _.
Qed.

Lemma fold_absorb : forall others a, fold_left absorb others a = fuse (a, others).
Proof.
  induction others as [|b others IH]; intros a; cbn [fold_left].
  - unfold fuse. cbn. rewrite app_nil_r. now destruct a.
  - rewrite IH. unfold fuse, absorb. cbn. now rewrite <- !app_assoc.
Qed.

(** On regions whose ends are in order, the loop of
    [mergeOverlappingSections] makes the runs of [groupRuns]: the end
    of [last] is the end of the region before [current]. *)
Lemma mergeLoop_runs : forall rest done last a,
  Sorted byEnd (a :: rest) -> end_ last = end_ a ->
  mergeLoop done last rest =
  done ++ match groupRuns (a :: rest) with
          | (_, others) :: runs => fold_left absorb others last :: map fuse runs
          | [] => []
          end.
Proof.
  induction rest as [|b rest IH]; intros done last a Hs He; [reflexivity|].
  cbn [mergeLoop].
  apply Sorted_inv in Hs. destruct Hs as [Hs Hab].
  apply HdRel_inv in Hab. unfold byEnd in Hab.
  change (groupRuns (a :: b :: rest)) with
    (match groupRuns (b :: rest) with
     | (b, run) :: runs =>
         if gap a b <=? 50 then (a, b :: run) :: runs
         else (a, []) :: (b, run) :: runs
     | [] => [(a, [])]
     end).
  destruct (groupRuns_head b rest) as (run & runs & E).
  unfold gap.
  destruct (Z.leb_spec (start b) (end_ last + 50)) as [Hle|Hgt].
  - rewrite (IH done (absorb last b) b Hs) by (cbn; lia).
    rewrite E. destruct (Z.leb_spec (start b - end_ a) 50); [|lia].
    reflexivity.
  - rewrite (IH (done ++ [last]) b b Hs eq_refl).
    rewrite E. destruct (Z.leb_spec (start b - end_ a) 50); [lia|].
    cbn [fold_left map]. rewrite fold_absorb, <- app_assoc. reflexivity.
Qed.

Lemma mergeOverlappingSections_runs sections :
  Sorted byEnd (sortByStart sections) ->
  mergeOverlappingSections sections = map fuse (groupRuns (sortByStart sections)).
Proof.
  unfold mergeOverlappingSections. intros Hs.
  destruct (sortByStart sections) as [|a rest]; [reflexivity|].
  rewrite (mergeLoop_runs rest [] a a Hs eq_refl).
  destruct (groupRuns_head a rest) as (run & runs & ->).
  cbn [app map]. now rewrite fold_absorb.
Qed.

(* ------------------------------------------------------------------ *)
(** ** Emission *)



Section Emission.

Variable createDocuments : TextSplitterParams -> list jsstring -> list Document.
Variable this : BankingDocumentSplitter.
Variable text : jsstring.

(** The loop of [splitTextIntoDocuments] and the split of the
    remaining text after it emit the spans, in their order. *)
Lemma forTableMatches_spans : forall rs lastIndex chunks,
  (let '(chunks', lastIndex') :=
     forTableMatches createDocuments this text rs lastIndex chunks in
   if lastIndex' <? len text
   then chunks' ++ createDocuments (params this) [sliceFrom text lastIndex']
   else chunks')
  = chunks ++ flat_map (emit createDocuments this text)
             (spansFrom text rs lastIndex).
Proof.
  induction rs as [|r rs IH]; intros li chunks; cbn [forTableMatches spansFrom].
  - destruct (li <? len text); cbn; now rewrite ?app_nil_r.
  - rewrite IH. rewrite flat_map_app. cbn [flat_map emit].
    destruct (li <? start r); cbn [flat_map emit app];
      rewrite ?app_nil_r, <- ?app_assoc; reflexivity.
Qed.

End Emission.

(* ------------------------------------------------------------------ *)
(** ** Detection as a whole *)

Lemma apart_sorted_disjoint hi l :
  StronglySorted apart l -> Forall (bounded hi) l ->
  StronglySorted byStart l /\ ForallOrdPairs disjoint l.
Proof.
  induction 1 as [|a l Hl IH Ha]; intros Hb; [split; constructor|].
  apply Forall_cons_iff in Hb. destruct Hb as [Hba Hb].
  destruct (IH Hb) as [IH1 IH2].
  split; constructor; auto; eapply Forall_impl; try exact Ha;
    unfold apart, byStart, disjoint, bounded in *; intros; lia.
Qed.

Lemma findTableSections_mono fuel fuel' this text r :
  (fuel <= fuel')%nat ->
  findTableSections fuel this text = Some r ->
  findTableSections fuel' this text = Some r.
Proof.
  unfold findTableSections. intros Hle.
  destruct (forPatterns fuel text (tablePatterns this) []) as [[s p]|] eqn:E;
    [|discriminate].
  now rewrite (forPatterns_mono text fuel fuel' _ _ _ Hle E).
Qed.

(** What [findTableSections] returns: regions in order, each more than
    the tolerance after the one before it, all inside the text; and an
    instance whose patterns were reset, if they were at 0 before. *)
Lemma findTableSections_result fuel this text regions this' :
  findTableSections fuel this text = Some (regions, this') ->
  StronglySorted apart regions
  /\ Forall (bounded (len text)) regions
  /\ params this' = params this
  /\ (Forall (fun p => RegExp.lastIndex p = 0) (tablePatterns this) ->
      this' = this).
Proof.
  unfold findTableSections.
  destruct (forPatterns fuel text (tablePatterns this) []) as [[s p]|] eqn:E;
    [|discriminate].
  intros [= <- <-]. apply forPatterns_result in E. destruct E as [Hs Hp].
  assert (Forall (bounded (len text)) s) as Hb.
  { eapply Forall_impl; [apply seeded_bounded | apply Hs; constructor]. }
  destruct (mergeOverlappingSections_apart (len text) s Hb) as [H1 H2].
  repeat split; auto.
  intros H0. rewrite (Hp H0). now destruct this.
Qed.

Lemma newBankingDocumentSplitter_reset :
  Forall (fun p => RegExp.lastIndex p = 0)
         (tablePatterns newBankingDocumentSplitter).
Proof. repeat constructor. Qed.

(** A pattern with a match on a line that stalls the expansion keeps
    [findTableSections] from returning. *)
Lemma execLoop_stalls text pattern m pattern' :
  RegExp.exec pattern text = (Some m, pattern') ->
  stalls text (RegExp.index m) = true ->
  forall fuel sections, execLoop fuel text pattern sections = None.
Proof.
  intros Ex Hst [|fuel] sections; [reflexivity|].
  cbn [execLoop]. rewrite Ex.
  destruct fuel as [|fuel]; [reflexivity|].
  now rewrite expandTableContext_eq, Hst.
Qed.

Lemma forPatterns_stalls text pattern m pattern' after :
  RegExp.exec pattern text = (Some m, pattern') ->
  stalls text (RegExp.index m) = true ->
  forall fuel before sections,
    forPatterns fuel text (before ++ pattern :: after) sections = None.
Proof.
  intros Ex Hst fuel. induction before as [|p ps IH]; intros sections;
    cbn [app forPatterns].
  - now rewrite (execLoop_stalls _ _ _ _ Ex Hst).
  - destruct (execLoop fuel text p sections) as [[s1 p1]|]; [|reflexivity].
    now rewrite IH.
Qed.

(** Patterns without a match leave the sections as they are. *)
Lemma forPatterns_no_match text fuel : forall patterns sections,
  Forall (fun p => fst (RegExp.exec p text) = None) patterns ->
  exists patterns',
    forPatterns (S fuel) text patterns sections = Some (sections, patterns').
Proof.
  induction patterns as [|p ps IH]; intros sections Hall.
  - now exists [].
  - apply Forall_cons_iff in Hall. destruct Hall as [Hp Hps].
    destruct (IH sections Hps) as [ps' E].
    cbn [forPatterns execLoop].
    destruct (RegExp.exec p text) as [r p1]. cbn [fst] in Hp. subst r.
    rewrite E. now eexists.
Qed.

Section Splitting.

Variable createDocuments : TextSplitterParams -> list jsstring -> list Document.

Lemma splitTextIntoDocuments_mono fuel fuel' this text r :
  (fuel <= fuel')%nat ->
  splitTextIntoDocuments createDocuments fuel this text = Some r ->
  splitTextIntoDocuments createDocuments fuel' this text = Some r.
Proof.
  unfold splitTextIntoDocuments. intros Hle.
  destruct (findTableSections fuel this text) as [[rs this']|] eqn:E;
    [|discriminate].
  now rewrite (findTableSections_mono _ _ _ _ _ Hle E).
Qed.

(** The chunks are the chunks of the spans of the text, in order. *)
Lemma splitTextIntoDocuments_spans fuel this text chunks this' :
  splitTextIntoDocuments createDocuments fuel this text = Some (chunks, this') ->
  exists tableMatches,
    findTableSections fuel this text = Some (tableMatches, this')
    /\ chunks = flat_map (emit createDocuments this' text)
                         (sourceSpans text tableMatches).
Proof.
  unfold splitTextIntoDocuments.
  destruct (findTableSections fuel this text) as [[rs this1]|] eqn:E;
    [|discriminate].
  destruct rs as [|r rs].
  - intros [= <- <-]. exists []. split; [reflexivity|].
    cbn. now rewrite app_nil_r.
  - pose proof (forTableMatches_spans createDocuments this1 text (r :: rs) 0 [])
      as Hsp.
    destruct (forTableMatches createDocuments this1 text (r :: rs) 0 [])
      as [chunks1 li] eqn:Ef.
    cbn [app] in Hsp.
    destruct (li <? len text); intros [= <- <-]; exists (r :: rs);
      (split; [reflexivity | exact Hsp]).
Qed.

(** Without a match of any pattern the call is the call of the generic
    splitter on the whole text. *)
Lemma splitTextIntoDocuments_no_match fuel this text :
  Forall (fun p => RegExp.lastIndex p = 0) (tablePatterns this) ->
  Forall (fun p => fst (RegExp.exec p text) = None) (tablePatterns this) ->
  splitTextIntoDocuments createDocuments (S fuel) this text
  = Some (createDocuments (params this) [text], this).
Proof.
  intros H0 Hno.
  destruct (forPatterns_no_match text fuel _ [] Hno) as [ps' E].
  pose proof (forPatterns_result _ _ _ _ _ _ E) as [_ Hp].
  unfold splitTextIntoDocuments, findTableSections. rewrite E.
  rewrite (Hp H0). cbn. now destruct this.
Qed.

End Splitting.

(* ------------------------------------------------------------------ *)
(** ** When the call returns *)

Section Progress.
Import RegExp.

Lemma star_progress p k :
  (forall prev s n, k prev s = Some n -> (1 <= n)%nat) ->
  forall s prev n, star p k prev s = Some n -> (1 <= n)%nat.
Proof.
  intros Hk. induction s as [|c s IH]; intros prev n; cbn [star];
    [apply Hk|].
  destruct (p c); [|apply Hk].
  destruct (star p k (Some c) s); [|apply Hk].
  intros [= <-]. lia.
Qed.

(** A pattern with a class that must be matched has no empty match. *)
Lemma run_progress m : forall r prev s n,
  consumes r = true -> run m r prev s = Some n -> (1 <= n)%nat.
Proof.
  induction r as [|i r IH]; intros prev s n Hc; [discriminate|].
  destruct i; cbn [run]; cbn in Hc.
  - destruct s as [|c s]; [discriminate|]. destruct (p c); [|discriminate].
    destruct (run m r (Some c) s); cbn; [|discriminate]. intros [= <-]. lia.
  - apply star_progress. intros prev' s' n'. now apply IH.
  - destruct s as [|c s]; [discriminate|]. destruct (p c); [|discriminate].
    destruct (star p (run m r) (Some c) s); cbn; [|discriminate].
    intros [= <-]. lia.
  - destruct (atBol m prev); [now apply IH | discriminate].
  - destruct (atEol m s); [now apply IH | discriminate].
Qed.

Lemma search_progress m r : forall s prev i j n,
  consumes r = true -> search m r prev s i = Some (j, n) -> (1 <= n)%nat.
Proof.
  induction s as [|c s IH]; intros prev i j n Hc; cbn [search].
  - destruct (run m r prev []) eqn:E; [|discriminate].
    intros [= _ <-]. now apply run_progress in E.
  - destruct (run m r prev (c :: s)) eqn:E.
    + intros [= _ <-]. now apply run_progress in E.
    + now apply IH.
Qed.

(** Under [g], a match of such a pattern moves [lastIndex] forwards. *)
Lemma exec_progress re s m re' :
  global re = true -> consumes (source re) = true ->
  exec re s = (Some m, re') ->
  lastIndex re <= len s /\ lastIndex re < lastIndex re'.
Proof.
  unfold exec. intros -> Hc.
  destruct (Z.ltb_spec (len s) (lastIndex re)); [discriminate|].
  destruct (searchAt re s (Z.max (lastIndex re) 0)) as [[j n]|] eqn:E;
    [|discriminate].
  intros [= _ <-]. cbn [lastIndex setLastIndex]. unfold searchAt in E.
  pose proof (search_progress _ _ _ _ _ _ _ Hc E).
  apply search_range in E. lia.
Qed.

End Progress.

Section Returning.

Variable text : jsstring.

(** No seed of the text is on a table line after the first line. *)
Hypothesis no_stall : forall i, stalls text i = false.

(** The loop of a pattern ends: every match moves [lastIndex], and
    [exec] returns [null] once it is past the end of the text. *)
Lemma execLoop_returns : forall fuel pattern sections,
  RegExp.global pattern = true ->
  RegExp.consumes (RegExp.source pattern) = true ->
  (Z.to_nat (len text + 1 - RegExp.lastIndex pattern) < fuel)%nat ->
  exists r, execLoop fuel text pattern sections = Some r.
Proof.
  induction fuel as [|fuel IH]; intros pattern sections Hg Hc Hf; [lia|].
  cbn [execLoop].
  destruct (RegExp.exec pattern text) as [[m|] p1] eqn:Ex; [|now eexists].
  destruct (exec_progress _ _ _ _ Hg Hc Ex) as [Hle Hlt].
  destruct (exec_object _ _ _ _ Ex) as (Hs1 & Hg1 & _).
  destruct fuel as [|fuel]; [lia|].
  rewrite expandTableContext_eq, no_stall.
  apply IH; [congruence | congruence | lia].
Qed.

Lemma forPatterns_returns fuel : forall patterns sections,
  Forall (fun p => RegExp.global p = true
                   /\ RegExp.consumes (RegExp.source p) = true
                   /\ RegExp.lastIndex p = 0) patterns ->
  (Z.to_nat (len text) + 1 < fuel)%nat ->
  exists r, forPatterns fuel text patterns sections = Some r.
Proof.
  induction patterns as [|p ps IH]; intros sections Hall Hf; [now eexists|].
  apply Forall_cons_iff in Hall. destruct Hall as [(Hg & Hc & H0) Hps].
  cbn [forPatterns].
  destruct (execLoop_returns fuel p sections Hg Hc) as [[s1 p1] ->].
  { rewrite H0. pose proof (len_nonneg text). lia. }
  destruct (IH s1 Hps Hf) as [[s2 ps2] ->]. now eexists.
Qed.

(** On such a text the call returns, with fuel for one test more than
    the text has offsets. *)
Lemma splitTextIntoDocuments_returns createDocuments :
  exists chunks,
    splitTextIntoDocuments createDocuments (S (S (Z.to_nat (len text))))
      newBankingDocumentSplitter text
    = Some (chunks, newBankingDocumentSplitter).
Proof.
  destruct (forPatterns_returns (S (S (Z.to_nat (len text))))
              (tablePatterns newBankingDocumentSplitter) [])
    as [[s ps] E]; [repeat constructor | lia |].
  assert (exists r, splitTextIntoDocuments createDocuments
                      (S (S (Z.to_nat (len text))))
                      newBankingDocumentSplitter text = Some r) as [[c t] Hr].
  { unfold splitTextIntoDocuments, findTableSections. rewrite E.
    destruct (mergeOverlappingSections s); [now eexists|].
    destruct (forTableMatches _ _ _ _ _ _) as [c li].
    destruct (li <? len text); now eexists. }
  exists c. rewrite Hr. f_equal. f_equal.
  destruct (splitTextIntoDocuments_spans _ _ _ _ _ _ Hr) as (rs & Hf & _).
  destruct (findTableSections_result _ _ _ _ _ Hf) as (_ & _ & _ & Hst).
  exact (Hst newBankingDocumentSplitter_reset).
Qed.

End Returning.

(** A text of one line has no seed that stalls the expansion. *)
Lemma one_line_no_stall text :
  ~ In nl text -> forall i, stalls text i = false.
Proof.
  intros Hnl i. unfold stalls, findLineStart. cbv zeta.
  destruct (Z.eqb_spec (lastIndexOf text nl i) (-1)) as [_|Hne]; [reflexivity|].
  apply lastIndexOf_found in Hne. destruct Hne as [_ Hnth].
  apply nth_error_In in Hnth. contradiction.
Qed.

(** The tolerance is measured from the end of the merged region so far,
    which for regions inside one another is not the end of the region
    just before: the third region here is 60 after the second and is
    merged all the same. *)
Example merge_measures_from_merged_end :
  mergeOverlappingSections
    [mkSection 0 100 (lit "x"); mkSection 10 20 (lit "y");
     mkSection 80 90 (lit "z")]
  = [mkSection 0 100 (lit "x, y, z")].
Proof. reflexivity. Qed.

Lemma in_spansFrom text r : forall rs lastIndex,
  In r rs -> In (Table r) (spansFrom text rs lastIndex).
Proof.
  induction rs as [|q rs IH]; intros li Hin; [contradiction|].
  cbn [spansFrom]. apply in_or_app. right.
  destruct Hin as [->|Hin]; [now left | right; now apply IH].
Qed.

(** The context before a region is the end of the text before it, the
    context after a region the start of the text after it, each 200
    characters long or all there is. *)
Lemma context_of_region text r :
  bounded (len text) r ->
  (exists pre,
     firstn (Z.to_nat (start r)) text
     = pre ++ slice text (Z.max 0 (start r - 200)) (start r))
  /\ len (slice text (Z.max 0 (start r - 200)) (start r))
     = Z.min 200 (start r)
  /\ (exists post,
        skipn (Z.to_nat (end_ r)) text
        = slice text (end_ r) (Z.min (len text) (end_ r + 200)) ++ post)
  /\ len (slice text (end_ r) (Z.min (len text) (end_ r + 200)))
     = Z.min 200 (len text - end_ r).
Proof.
  unfold bounded. intros Hb.
  rewrite !slice_inside by lia. unfold substr.
  set (a := Z.max 0 (start r - 200)). set (b := Z.min (len text) (end_ r + 200)).
  repeat split.
  - exists (firstn (Z.to_nat a) text).
    rewrite firstn_skipn_comm.
    replace (Z.to_nat a + Z.to_nat (start r - a))%nat with (Z.to_nat (start r))
      by lia.
    replace (firstn (Z.to_nat a) text)
      with (firstn (Z.to_nat a) (firstn (Z.to_nat (start r)) text)).
    + symmetry. apply firstn_skipn.
    + rewrite firstn_firstn. f_equal. lia.
  - unfold len in *. rewrite length_firstn, length_skipn. lia.
  - exists (skipn (Z.to_nat (b - end_ r)) (skipn (Z.to_nat (end_ r)) text)).
    symmetry. apply firstn_skipn.
  - unfold len in *. rewrite length_firstn, length_skipn. lia.
Qed.

(* ------------------------------------------------------------------ *)
(** ** The properties of the specification *)

(** C1 (table atomicity), at an input where the code departs from it:
    on the one-row table [| Rate | Term |], a line of its own, the
    call returns a table chunk whose [table_content] is the empty
    string, followed by the chunks of the whole text; no chunk of type
    table holds the matched row. *)
Theorem table_content_misses_match : forall createDocuments fuel,
  splitTextIntoDocuments createDocuments (S (S fuel))
    newBankingDocumentSplitter (lit "| Rate | Term |" ++ [nl])
  = Some
      ({| pageContent :=
            [nl; nl] ++ lit "[TABLE: | Rate | Term |]" ++ [nl] ++ [nl]
            ++ lit "[END TABLE]" ++ [nl; nl] ++ lit "| Rate | Term |" ++ [nl];
          metadata :=
            [("type"%string, VStr (lit "table"));
             ("header"%string, VStr (lit "| Rate | Term |"));
             ("table_content"%string, VStr [])] |}
       :: createDocuments (params newBankingDocumentSplitter)
            [lit "| Rate | Term |" ++ [nl]],
       newBankingDocumentSplitter).
Proof.
  intros createDocuments fuel.
  apply (splitTextIntoDocuments_mono createDocuments 2); [lia|].
  vm_compute. reflexivity.
Qed.





(** C3 (region expansion), at an input where the code departs from it:
    both lines of a two-row table are table lines, yet from the seed
    in the first row the region returned is empty, not the two rows,
    and from the seed in the second row no region is ever returned. *)
Theorem expansion_not_maximal :
  isTableLine (slice twoRows 0 3) = true
  /\ isTableLine (slice twoRows 4 7) = true
  /\ len twoRows = 7
  /\ (forall fuel, expandTableContext (S fuel) twoRows 0 = Some (0, 0))
  /\ (forall fuel, expandTableContext fuel twoRows 4 = None).
Proof.
  split; [reflexivity|]. split; [reflexivity|]. split; [reflexivity|].
  split; intros fuel.
  - now rewrite expandTableContext_eq.
  - destruct fuel as [|fuel]; [reflexivity|]. now rewrite expandTableContext_eq.
Qed.

(** C4 (no-table fallback): when no pattern of the splitter has a match
    in the text, the call returns and its chunks are exactly what the
    generic splitter returns for the whole text with the fields of the
    instance, chunk size 1000 and overlap 200. *)
Theorem no_table_fallback : forall createDocuments fuel text,
  Forall (fun p => fst (RegExp.exec p text) = None)
         (tablePatterns newBankingDocumentSplitter) ->
  splitTextIntoDocuments createDocuments (S fuel) newBankingDocumentSplitter text
  = Some (createDocuments (params newBankingDocumentSplitter) [text],
          newBankingDocumentSplitter)
  /\ chunkSize (params newBankingDocumentSplitter) = 1000
  /\ chunkOverlap (params newBankingDocumentSplitter) = 200.
Proof.
  intros createDocuments fuel text Hno. split; [|split; reflexivity].
  apply splitTextIntoDocuments_no_match;
    [exact newBankingDocumentSplitter_reset | exact Hno].
Qed.

Lemma no_table_fallback_witness :
  Forall (fun p => fst (RegExp.exec p (lit "Closing paragraph.")) = None)
         (tablePatterns newBankingDocumentSplitter)
  /\ splitTextIntoDocuments wholeTexts 1 newBankingDocumentSplitter
       (lit "Closing paragraph.")
     = Some (wholeTexts (params newBankingDocumentSplitter)
               [lit "Closing paragraph."],
             newBankingDocumentSplitter).
Proof.
  assert (Forall (fun p => fst (RegExp.exec p (lit "Closing paragraph.")) = None)
                 (tablePatterns newBankingDocumentSplitter)) as Hno
    by (repeat constructor).
  split; [exact Hno|].
  exact (proj1 (no_table_fallback wholeTexts 0 (lit "Closing paragraph.") Hno)).
Defined.

(** C5 (merge tolerance): on the regions detected in a text,
    [mergeOverlappingSections] makes one region of each run of the
    sorted regions, where two regions that follow one another are in
    one run exactly when the gap between them is at most 50, and the
    region of a run carries the headers of the run joined by commas. *)
Theorem merge_tolerance : forall fuel this text sections patterns',
  forPatterns fuel text (tablePatterns this) [] = Some (sections, patterns') ->
  mergeOverlappingSections sections
  = map fuse (groupRuns (sortByStart sections)).
Proof.
  intros fuel this text sections patterns' H.
  apply forPatterns_result in H. destruct H as [Hs _].
  apply mergeOverlappingSections_runs.
  apply (seeded_Sorted_byEnd text).
  - apply sortByStart_Forall. apply Hs. constructor.
  - apply sortByStart_Sorted.
Qed.

Lemma merge_tolerance_witness :
  exists sections,
    forPatterns 3 captions (tablePatterns newBankingDocumentSplitter) []
    = Some (sections, tablePatterns newBankingDocumentSplitter)
    /\ map start (sortByStart sections) = [0; 10; 16; 44; 96]
    /\ map end_ (sortByStart sections) = [0; 10; 16; 44; 96]
    /\ map (fun r => (start r, end_ r)) (mergeOverlappingSections sections)
       = [(0, 44); (96, 96)]
    /\ mergeOverlappingSections sections
       = map fuse (groupRuns (sortByStart sections)).
Proof.
  eexists. split; [vm_compute; reflexivity|].
  split; [reflexivity|]. split; [reflexivity|]. split; [reflexivity|].
  apply (merge_tolerance 3 newBankingDocumentSplitter captions _
           (tablePatterns newBankingDocumentSplitter)).
  vm_compute. reflexivity.
Defined.

(** C6 (regions after merging): the regions [findTableSections] returns
    are sorted by their start, and no two of them share an offset of
    the text. *)
Theorem merged_regions_sorted_disjoint : forall fuel this text regions this',
  findTableSections fuel this text = Some (regions, this') ->
  StronglySorted byStart regions /\ ForallOrdPairs disjoint regions.
Proof.
  intros fuel this text regions this' H.
  destruct (findTableSections_result _ _ _ _ _ H) as (Hs & Hb & _).
  exact (apart_sorted_disjoint _ _ Hs Hb).
Qed.

Lemma merged_regions_sorted_disjoint_witness :
  exists regions,
    findTableSections 3 newBankingDocumentSplitter captions
    = Some (regions, newBankingDocumentSplitter)
    /\ map (fun r => (start r, end_ r)) regions = [(0, 44); (96, 96)]
    /\ StronglySorted byStart regions /\ ForallOrdPairs disjoint regions.
Proof.
  eexists. split; [vm_compute; reflexivity|]. split; [reflexivity|].
  apply (merged_regions_sorted_disjoint 3 newBankingDocumentSplitter captions _
           newBankingDocumentSplitter).
  vm_compute. reflexivity.
Defined.

(** C7 (format of a table chunk): for every region that
    [findTableSections] returns, the chunks hold a table chunk whose
    content is the context before the region, the marker with the
    header, the text of the region, the end marker and the context
    after the region, and whose metadata holds the type, the header
    and the text of the region; each context is the 200 characters of
    the text next to the region, or all there are. *)
Theorem table_chunk_format :
  forall createDocuments fuel this text chunks this' regions r,
  splitTextIntoDocuments createDocuments fuel this text = Some (chunks, this') ->
  findTableSections fuel this text = Some (regions, this') ->
  In r regions ->
  exists contextBefore contextAfter,
    In {| pageContent :=
            contextBefore ++ [nl; nl] ++ lit "[TABLE: " ++ header r ++ lit "]"
            ++ [nl] ++ slice text (start r) (end_ r) ++ [nl]
            ++ lit "[END TABLE]" ++ [nl; nl] ++ contextAfter;
          metadata :=
            [("type"%string, VStr (lit "table"));
             ("header"%string, VStr (header r));
             ("table_content"%string, VStr (slice text (start r) (end_ r)))] |}
       chunks
    /\ (exists pre, firstn (Z.to_nat (start r)) text = pre ++ contextBefore)
    /\ len contextBefore = Z.min 200 (start r)
    /\ (exists post, skipn (Z.to_nat (end_ r)) text = contextAfter ++ post)
    /\ len contextAfter = Z.min 200 (len text - end_ r).
Proof.
  intros createDocuments fuel this text chunks this' regions r Hsplit Hfind Hin.
  destruct (splitTextIntoDocuments_spans _ _ _ _ _ _ Hsplit) as (rs & Hf & ->).
  rewrite Hfind in Hf. injection Hf as <-.
  destruct (findTableSections_result _ _ _ _ _ Hfind) as (_ & Hb & _).
  rewrite Forall_forall in Hb.
  destruct (context_of_region text r (Hb r Hin)) as (Hpre & Hlb & Hpost & Hla).
  exists (slice text (Z.max 0 (start r - 200)) (start r)),
         (slice text (end_ r) (Z.min (len text) (end_ r + 200))).
  split; [|now repeat split].
  apply in_flat_map. exists (Table r). split; [|now left].
  destruct regions as [|q regions]; [contradiction|].
  now apply in_spansFrom.
Qed.

Lemma table_chunk_format_witness :
  exists chunks,
    splitTextIntoDocuments wholeTexts 3 newBankingDocumentSplitter captions
    = Some (chunks, newBankingDocumentSplitter)
    /\ exists contextBefore contextAfter,
         In {| pageContent :=
                 contextBefore ++ [nl; nl] ++ lit "[TABLE: " ++ lit "Table 2.3"
                 ++ lit "]" ++ [nl] ++ slice captions 96 96 ++ [nl]
                 ++ lit "[END TABLE]" ++ [nl; nl] ++ contextAfter;
               metadata :=
                 [("type"%string, VStr (lit "table"));
                  ("header"%string, VStr (lit "Table 2.3"));
                  ("table_content"%string, VStr (slice captions 96 96))] |}
            chunks
         /\ (exists pre, firstn (Z.to_nat 96) captions = pre ++ contextBefore)
         /\ len contextBefore = Z.min 200 96
         /\ (exists post, skipn (Z.to_nat 96) captions = contextAfter ++ post)
         /\ len contextAfter = Z.min 200 (len captions - 96).
Proof.
  eexists. split; [vm_compute; reflexivity|].
  apply (table_chunk_format wholeTexts 3 newBankingDocumentSplitter captions _
           newBankingDocumentSplitter
           [mkSection 0 44
              (lit "Table 1.1, | a | Schedule AB rates | - | b |, Schedule AB, Exhibit 9");
            mkSection 96 96 (lit "Table 2.3")]
           (mkSection 96 96 (lit "Table 2.3"))).
  - vm_compute. reflexivity.
  - vm_compute. reflexivity.
  - right. left. reflexivity.
Defined.

(** C8 (totality), at an input where the code departs from it: on the
    scenario of the specification the call does not return, whatever
    the fuel; the row [| Rate | Term |] is matched on a line of its
    own after the first, and the expansion from it never ends. *)
Theorem split_never_returns : forall createDocuments fuel,
  splitTextIntoDocuments createDocuments fuel newBankingDocumentSplitter scenario
  = None.
Proof.
  intros createDocuments fuel.
  unfold splitTextIntoDocuments, findTableSections.
  change (tablePatterns newBankingDocumentSplitter) with
    ([ RegExp.mk Pattern.tableCaption true false 0;
       RegExp.mk Pattern.schedule true false 0;
       RegExp.mk Pattern.exhibit true false 0 ]
     ++ RegExp.mk Pattern.tableRow true false 0
     :: [ RegExp.mk Pattern.tableSeparator true true 0 ]).
  rewrite (forPatterns_stalls scenario _
             (RegExp.mkResult 28 (lit "| Rate | Term |"))
             (RegExp.mk Pattern.tableRow true false 43)).
  - reflexivity.
  - vm_compute. reflexivity.
  - vm_compute. reflexivity.
Qed.

(** C9 (empty input): given that the generic splitter returns no
    document for the empty text, the call on the empty text returns
    no chunk, whatever the chunk size and the overlap of the
    instance. *)
Theorem empty_input : forall createDocuments fuel p,
  (forall q, createDocuments q [[]] = []) ->
  splitTextIntoDocuments createDocuments (S fuel)
    (mkSplitter p (tablePatterns newBankingDocumentSplitter)) []
  = Some ([], mkSplitter p (tablePatterns newBankingDocumentSplitter)).
Proof.
  intros createDocuments fuel p Hempty.
  rewrite splitTextIntoDocuments_no_match.
  - cbn [params]. now rewrite Hempty.
  - exact newBankingDocumentSplitter_reset.
  - repeat constructor.
Qed.

Lemma empty_input_witness :
  (forall q, wholeTexts q [[]] = [])
  /\ splitTextIntoDocuments wholeTexts 1 newBankingDocumentSplitter []
     = Some ([], newBankingDocumentSplitter).
Proof.
  split; [reflexivity|].
  exact (empty_input wholeTexts 0 (params newBankingDocumentSplitter)
           (fun q => eq_refl)).
Defined.

(** C10 (determinism): a call that returns leaves the instance as it
    was constructed, every pattern back at [lastIndex] 0; a second
    call on the instance with the same text returns, and whenever it
    returns its chunks are those of the first call. *)
Theorem split_deterministic : forall createDocuments fuel text chunks this',
  splitTextIntoDocuments createDocuments fuel newBankingDocumentSplitter text
  = Some (chunks, this') ->
  this' = newBankingDocumentSplitter
  /\ splitTextIntoDocuments createDocuments fuel this' text = Some (chunks, this')
  /\ forall fuel2 chunks2 this2,
       splitTextIntoDocuments createDocuments fuel2 this' text
       = Some (chunks2, this2) ->
       chunks2 = chunks /\ this2 = this'.
Proof.
  intros createDocuments fuel text chunks this' H.
  assert (this' = newBankingDocumentSplitter) as ->.
  { destruct (splitTextIntoDocuments_spans _ _ _ _ _ _ H) as (rs & Hf & _).
    destruct (findTableSections_result _ _ _ _ _ Hf) as (_ & _ & _ & Hst).
    exact (Hst newBankingDocumentSplitter_reset). }
  split; [reflexivity|]. split; [exact H|].
  intros fuel2 chunks2 this2 H2.
  apply (splitTextIntoDocuments_mono _ _ (Nat.max fuel fuel2)) in H; [|lia].
  apply (splitTextIntoDocuments_mono _ _ (Nat.max fuel fuel2)) in H2; [|lia].
  rewrite H in H2. injection H2 as <- <-. now split.
Qed.

Lemma split_deterministic_witness :
  exists chunks,
    splitTextIntoDocuments wholeTexts 3 newBankingDocumentSplitter captions
    = Some (chunks, newBankingDocumentSplitter)
    /\ length chunks = 4%nat
    /\ splitTextIntoDocuments wholeTexts 3 newBankingDocumentSplitter captions
       = Some (chunks, newBankingDocumentSplitter)
    /\ forall fuel2 chunks2 this2,
         splitTextIntoDocuments wholeTexts fuel2 newBankingDocumentSplitter captions
         = Some (chunks2, this2) ->
         chunks2 = chunks /\ this2 = newBankingDocumentSplitter.
Proof.
  eexists. split; [vm_compute; reflexivity|]. split; [reflexivity|].
  apply (split_deterministic wholeTexts 3 captions _ newBankingDocumentSplitter).
  vm_compute. reflexivity.
Defined.

(* ------------------------------------------------------------------ *)
(** ** The matcher on the patterns of table lines *)

Section Matching.
Import RegExp.

Lemma star_blind p k : blind k -> blind (star p k).
Proof.
  intros Hk p1 p2 s. revert p1 p2.
  induction s as [|c s IH]; intros p1 p2; cbn [star]; [apply Hk|].
  destruct (p c); [|apply Hk].
  destruct (star p k (Some c) s); [reflexivity | apply Hk].
Qed.

(** Items without [^] do not look at the character before. *)
Lemma run_blind m : forall r,
  forallb (fun i => match i with Bol => false | _ => true end) r = true ->
  blind (run m r).
Proof.
  induction r as [|i r IH]; intros Hr; [intros p1 p2 s; reflexivity|].
  cbn [forallb] in Hr. apply andb_prop in Hr. destruct Hr as [Hi Hr].
  specialize (IH Hr). destruct i; try discriminate; intros p1 p2 s; cbn [run].
  - reflexivity.
  - now apply star_blind.
  - reflexivity.
  - destruct (atEol m s); [apply IH | reflexivity].
Qed.

(** What a successful repetition matched: characters of the class,
    then what the continuation matched. *)
Lemma star_sound p k : forall s prev n,
  star p k prev s = Some n ->
  exists a b prev' n',
    s = a ++ b /\ forallb p a = true /\ k prev' b = Some n'
    /\ n = (length a + n')%nat.
Proof.
  induction s as [|c s IH]; intros prev n; cbn [star].
  - intros H. now exists [], [], prev, n.
  - destruct (p c) eqn:Hp; [|intros H; now exists [], (c :: s), prev, n].
    destruct (star p k (Some c) s) as [n1|] eqn:E;
      [|intros H; now exists [], (c :: s), prev, n].
    intros [= <-]. destruct (IH _ _ E) as (a & b & prev' & n' & -> & Ha & Hk & ->).
    exists (c :: a), b, prev', n'. cbn. now rewrite Hp, Ha.
Qed.

(** A repetition succeeds whenever some split of the input does: giving
    characters back one at a time reaches every split. *)
Lemma star_complete p k : blind k ->
  forall a b prev prev' n',
  forallb p a = true -> k prev' b = Some n' ->
  exists n, star p k prev (a ++ b) = Some n.
Proof.
  intros Hk. induction a as [|x a IH]; intros b prev prev' n' Ha Hb.
  - cbn [app]. destruct b as [|c b]; cbn [star].
    + rewrite (Hk prev prev'). eauto.
    + destruct (p c); [|rewrite (Hk prev prev'); eauto].
      destruct (star p k (Some c) b); [eauto|].
      rewrite (Hk prev prev'). eauto.
  - cbn [forallb] in Ha. apply andb_prop in Ha. destruct Ha as [Hx Ha].
    cbn [app star]. rewrite Hx.
    destruct (IH b (Some x) prev' n' Ha Hb) as [n ->]. eauto.
Qed.

(** The first position at which blind items match is found. *)
Lemma search_complete m r : blind (run m r) ->
  forall a b prev prev' i n',
  run m r prev' b = Some n' ->
  exists j n, search m r prev (a ++ b) i = Some (j, n) /\ i <= j <= i + len a.
Proof.
  intros Hr. induction a as [|x a IH]; intros b prev prev' i n' Hb.
  - cbn [app]. exists i, n'. unfold len. cbn [length].
    destruct b; cbn [search]; rewrite (Hr prev prev'), Hb; split; (reflexivity || lia).
  - cbn [app search]. destruct (run m r prev (x :: a ++ b)) as [n|].
    + exists i, n. pose proof (len_nonneg (x :: a)). split; [reflexivity | lia].
    + destruct (IH b (Some x) prev' (i + 1) n' Hb) as (j & n & E & Hj).
      exists j, n. rewrite len_cons. split; [exact E | lia].
Qed.

(** Where a search succeeds the items match. *)
Lemma search_sound m r : forall s prev i j n,
  search m r prev s i = Some (j, n) ->
  i <= j /\ exists prev', run m r prev' (skipn (Z.to_nat (j - i)) s) = Some n.
Proof.
  induction s as [|c s IH]; intros prev i j n; cbn [search].
  - destruct (run m r prev []) eqn:E; [|discriminate].
    intros [= <- <-]. rewrite Z.sub_diag. split; [lia | now exists prev].
  - destruct (run m r prev (c :: s)) eqn:E.
    + intros [= <- <-]. rewrite Z.sub_diag. split; [lia | now exists prev].
    + intros H. apply IH in H. destruct H as (Hle & prev' & H).
      split; [lia|]. exists prev'.
      replace (Z.to_nat (j - i)) with (S (Z.to_nat (j - (i + 1)))) by lia.
      exact H.
Qed.

Lemma tableRow_blind m : blind (run m Pattern.tableRow).
Proof. now apply run_blind. Qed.

(** A match of [/\|.*\|/]: a pipe, characters that are not line
    terminators, a pipe. *)
Lemma tableRow_sound m prev s n :
  run m Pattern.tableRow prev s = Some n ->
  exists b c,
    s = pipe :: b ++ pipe :: c /\ forallb dot b = true
    /\ n = S (S (length b)).
Proof.
  unfold Pattern.tableRow. cbn [run].
  destruct s as [|x s]; [discriminate|].
  destruct (chr "|" x) eqn:Hx; [|discriminate].
  destruct (star dot _ (Some x) s) as [n1|] eqn:E; [|discriminate].
  cbn. intros [= <-].
  destruct (star_sound _ _ _ _ _ E) as (b & rest & prev' & n' & -> & Hb & Hk & ->).
  destruct rest as [|y c]; [discriminate|].
  destruct (chr "|" y) eqn:Hy; [|discriminate].
  cbn in Hk. injection Hk as <-.
  apply N.eqb_eq in Hx, Hy. cbn in Hx, Hy. subst x y.
  exists b, c. repeat split; auto. lia.
Qed.

Lemma tableRow_complete m prev b c :
  forallb dot b = true ->
  exists n, run m Pattern.tableRow prev (pipe :: b ++ pipe :: c) = Some n.
Proof.
  intros Hb.
  change (run m Pattern.tableRow prev (pipe :: b ++ pipe :: c))
    with (option_map S (star dot (run m [One (chr "|")]) (Some pipe)
                          (b ++ pipe :: c))).
  destruct (star_complete dot (run m [One (chr "|")])
              (run_blind m [One (chr "|")] eq_refl)
              b (pipe :: c) (Some pipe) None 1%nat Hb eq_refl) as [n ->].
  cbn. eauto.
Qed.

(** [/\|.*\|/.test(s)]: somewhere in [s] are two pipes with no line
    terminator between them. *)
Lemma test_tableRow m s :
  test Pattern.tableRow m s = true <->
  exists a b c, s = a ++ pipe :: b ++ pipe :: c /\ forallb dot b = true.
Proof.
  unfold test. split.
  - destruct (search m Pattern.tableRow None s 0) as [[j n]|] eqn:E;
      [|discriminate].
    intros _. apply search_sound in E. destruct E as (Hj & prev' & E).
    apply tableRow_sound in E. destruct E as (b & c & E & Hb & _).
    exists (firstn (Z.to_nat (j - 0)) s), b, c. split; [|exact Hb].
    rewrite <- E. symmetry. apply firstn_skipn.
  - intros (a & b & c & -> & Hb).
    destruct (tableRow_complete m None b c Hb) as [n' Hn].
    destruct (search_complete m _ (tableRow_blind m) a _ None None 0 n' Hn)
      as (j & n & -> & _).
    reflexivity.
Qed.

Lemma pipeOrSpace_sepChar c : pipeOrSpace c = true -> sepChar c = true.
Proof.
  unfold pipeOrSpace, sepChar. intros H. apply orb_prop in H.
  destruct H as [-> | ->]; now rewrite ?orb_true_r.
Qed.

Lemma forallb_pipeOrSpace_sepChar s :
  forallb pipeOrSpace s = true -> forallb sepChar s = true.
Proof.
  rewrite !forallb_forall. intros H c Hc. apply pipeOrSpace_sepChar. now apply H.
Qed.

Lemma search_after_start_fails r : forall s c i,
  search false (Bol :: r) (Some c) s i = None.
Proof.
  induction s as [|x s IH]; intros c i; cbn [search run atBol andb];
    [reflexivity | apply IH].
Qed.

(** Without [m], items that start with [^] match at the start of the
    input or nowhere. *)
Lemma search_anchored r s :
  search false (Bol :: r) None s 0
  = match run false r None s with
    | Some n => Some (0, n)
    | None => None
    end.
Proof.
  destruct s as [|x s]; cbn [search];
    change (run false (Bol :: r) None) with (run false r None).
  - now destruct (run false r None []).
  - destruct (run false r None (x :: s)); [reflexivity|].
    apply search_after_start_fails.
Qed.

(** [/^[\|\s]*[\|\-\:\s]+[\|\s]*$/.test(s)]: [s] is not empty and holds
    nothing but pipes, dashes, colons and white space. *)
Lemma test_tableSeparator s :
  test Pattern.tableSeparator false s = true <->
  s <> [] /\ forallb sepChar s = true.
Proof.
  unfold test, Pattern.tableSeparator.
  set (k2 := run false [Star pipeOrSpace; Eol]).
  set (k1 := run false [Plus sepChar; Star pipeOrSpace; Eol]).
  rewrite search_anchored.
  change (run false [Star pipeOrSpace; Plus sepChar; Star pipeOrSpace; Eol] None s)
    with (star pipeOrSpace k1 None s).
  split.
  - destruct (star pipeOrSpace k1 None s) as [n|] eqn:E; [|discriminate].
    intros _.
    destruct (star_sound _ _ _ _ _ E) as (a & rest & p1 & n1 & -> & Ha & Hk & _).
    destruct rest as [|x rest]; [discriminate|].
    change (k1 p1 (x :: rest))
      with (if sepChar x
            then option_map S (star sepChar k2 (Some x) rest) else None) in Hk.
    destruct (sepChar x) eqn:Hx; [|discriminate].
    destruct (star sepChar k2 (Some x) rest) as [n2|] eqn:E2; [|discriminate].
    destruct (star_sound _ _ _ _ _ E2) as (b & rest2 & p2 & n3 & -> & Hb & Hk2 & _).
    change (k2 p2 rest2) with (star pipeOrSpace (run false [Eol]) p2 rest2) in Hk2.
    destruct (star_sound _ _ _ _ _ Hk2) as (d & rest3 & p3 & n4 & -> & Hd & Hk3 & _).
    destruct rest3 as [|y rest3]; [|discriminate].
    split; [now destruct a|].
    rewrite !forallb_app. cbn [forallb]. rewrite !forallb_app. cbn [forallb].
    rewrite Hx, Hb.
    rewrite (forallb_pipeOrSpace_sepChar _ Ha), (forallb_pipeOrSpace_sepChar _ Hd).
    reflexivity.
  - intros [Hne Hall]. destruct s as [|x s]; [contradiction|].
    cbn [forallb] in Hall. apply andb_prop in Hall. destruct Hall as [Hx Hs].
    assert (blind k2) as Hk2 by (now apply run_blind).
    assert (exists n, k1 None (x :: s) = Some n) as [n1 Hn1].
    { change (k1 None (x :: s))
        with (if sepChar x
              then option_map S (star sepChar k2 (Some x) s) else None).
      rewrite Hx.
      destruct (star_complete sepChar k2 Hk2 s [] (Some x) None O Hs eq_refl)
        as [n E].
      rewrite app_nil_r in E. rewrite E. cbn. eauto. }
    assert (blind k1) as Hk1 by (now apply run_blind).
    destruct (star_complete pipeOrSpace k1 Hk1 [] (x :: s) None None n1 eq_refl Hn1)
      as [n E].
    cbn [app] in E. now rewrite E.
Qed.

End Matching.

Lemma isTableLine_spec line :
  isTableLine line = true <->
  (trim line <> [] /\ forallb RegExp.sepChar (trim line) = true)
  \/ (exists a b c,
        line = a ++ pipe :: b ++ pipe :: c /\ forallb RegExp.dot b = true).
Proof.
  unfold isTableLine. rewrite orb_true_iff.
  now rewrite test_tableSeparator, test_tableRow.
Qed.

(** X1: [isTableLine] in plain terms.  A line is a table line exactly
    when, trimmed, it is not empty and made of pipes, dashes, colons
    and white space only, or when it has two pipes with no line
    terminator between them. *)
Theorem isTableLine_iff : forall line,
  isTableLine line = true <->
  (trim line <> [] /\ forallb RegExp.sepChar (trim line) = true)
  \/ (exists a b c,
        line = a ++ pipe :: b ++ pipe :: c /\ forallb RegExp.dot b = true).
Proof.
  exact isTableLine_spec.
Qed.

(* ------------------------------------------------------------------ *)
(** ** Lines of a text *)

Lemma In_firstn {A} (x : A) n l : In x (firstn n l) -> In x l.
Proof.
  intros H. rewrite <- (firstn_skipn n l). apply in_or_app. now left.
Qed.

Lemma In_skipn {A} (x : A) n l : In x (skipn n l) -> In x l.
Proof.
  intros H. rewrite <- (firstn_skipn n l). apply in_or_app. now right.
Qed.

Lemma indexFrom_first c s : forall i,
  0 <= i ->
  (indexFrom c s i = -1 /\ ~ In c s)
  \/ (i <= indexFrom c s i
      /\ nth_error s (Z.to_nat (indexFrom c s i - i)) = Some c
      /\ ~ In c (firstn (Z.to_nat (indexFrom c s i - i)) s)).
Proof.
  induction s as [|x s IH]; intros i Hi; cbn [indexFrom]; [left; now split|].
  destruct (N.eqb_spec x c) as [->|Hne].
  - right. rewrite Z.sub_diag. cbn. repeat split; auto; lia.
  - destruct (IH (i + 1)) as [[E Hn] | (Hle & Hnth & Hn)]; [lia | left | right].
    + split; [exact E|]. intros [H|H]; [contradiction | now apply Hn].
    + replace (Z.to_nat (indexFrom c s (i + 1) - i))
        with (S (Z.to_nat (indexFrom c s (i + 1) - (i + 1)))) by lia.
      cbn [nth_error firstn]. repeat split; [lia | exact Hnth |].
      intros [H|H]; [contradiction | now apply Hn].
Qed.

Lemma lastIndexIn_last c s : forall i acc,
  (lastIndexIn c s i acc = acc /\ ~ In c s)
  \/ (i <= lastIndexIn c s i acc < i + len s
      /\ nth_error s (Z.to_nat (lastIndexIn c s i acc - i)) = Some c
      /\ ~ In c (skipn (S (Z.to_nat (lastIndexIn c s i acc - i))) s)).
Proof.
  induction s as [|x s IH]; intros i acc; cbn [lastIndexIn]; [left; now split|].
  rewrite len_cons.
  destruct (IH (i + 1) (if N.eqb x c then i else acc))
    as [[E Hn] | (Hle & Hnth & Hn)].
  - rewrite E. destruct (N.eqb_spec x c) as [->|Hne].
    + right. rewrite Z.sub_diag. pose proof (len_nonneg s).
      cbn. repeat split; auto; lia.
    + left. split; [reflexivity|].
      intros [H|H]; [contradiction | now apply Hn].
  - right.
    replace (Z.to_nat (lastIndexIn c s (i + 1) (if N.eqb x c then i else acc) - i))
      with (S (Z.to_nat (lastIndexIn c s (i + 1)
                           (if N.eqb x c then i else acc) - (i + 1)))) by lia.
    cbn [nth_error skipn]. repeat split; [lia | lia | exact Hnth | exact Hn].
Qed.

Lemma findLineEnd_spec text index :
  let from := Z.min (Z.max index 0) (len text) in
  from <= findLineEnd text index <= len text
  /\ ~ In nl (slice text from (findLineEnd text index))
  /\ (findLineEnd text index < len text ->
      nth_error text (Z.to_nat (findLineEnd text index)) = Some nl).
Proof.
  intros from. pose proof (len_nonneg text) as Hl.
  assert (0 <= from <= len text) as Hf by (unfold from; lia).
  unfold findLineEnd, indexOf. cbv zeta. fold from.
  destruct (indexFrom_first nl (skipn (Z.to_nat from) text) from (proj1 Hf))
    as [[E Hn] | (Hle & Hnth & Hn)].
  - rewrite E, Z.eqb_refl. repeat split; try lia.
    rewrite slice_inside by lia. unfold substr.
    intros H. apply Hn. eapply In_firstn; eauto.
  - set (r := indexFrom nl (skipn (Z.to_nat from) text) from) in *.
    assert (r < len text) as Hr.
    { assert (Z.to_nat (r - from) < length (skipn (Z.to_nat from) text))%nat
        by (apply nth_error_Some; congruence).
      rewrite length_skipn in H. unfold len in *. lia. }
    destruct (Z.eqb_spec r (-1)); [lia|].
    repeat split; try lia.
    + rewrite slice_inside by lia. exact Hn.
    + intros _. rewrite nth_error_skipn in Hnth.
      replace (Z.to_nat r) with (Z.to_nat from + Z.to_nat (r - from))%nat by lia.
      exact Hnth.
Qed.

(** X2: [findLineEnd] returns the offset of the first newline at or
    after the index (clamped to the text), or the length of the text
    when there is none. *)
Theorem findLineEnd_first_newline : forall text index,
  let from := Z.min (Z.max index 0) (len text) in
  from <= findLineEnd text index <= len text
  /\ ~ In nl (slice text from (findLineEnd text index))
  /\ (findLineEnd text index < len text ->
      nth_error text (Z.to_nat (findLineEnd text index)) = Some nl).
Proof.
  exact findLineEnd_spec.
Qed.

Lemma findLineStart_spec text index :
  let upto := Z.max index 0 in
  0 <= findLineStart text index <= upto + 1
  /\ findLineStart text index <= len text
  /\ (findLineStart text index = 0
      \/ nth_error text (Z.to_nat (findLineStart text index - 1)) = Some nl)
  /\ ~ In nl (slice text (findLineStart text index) (upto + 1)).
Proof.
  intros upto. pose proof (len_nonneg text) as Hl.
  assert (0 <= upto) as Hu by (unfold upto; lia).
  unfold findLineStart, lastIndexOf. cbv zeta. fold upto.
  set (s := firstn (S (Z.to_nat upto)) text).
  assert (len s <= upto + 1 /\ len s <= len text) as [Hs1 Hs2].
  { unfold s, len. rewrite length_firstn. lia. }
  assert (forall a, 0 <= a -> slice text a (upto + 1) = skipn (Z.to_nat a) s) as Hsl.
  { intros a Ha. unfold slice, relIndex, substr.
    destruct (Z.ltb_spec a 0); [lia|]. destruct (Z.ltb_spec (upto + 1) 0); [lia|].
    destruct (Z.le_gt_cases (len s) a) as [Hge|Hlt].
    - rewrite (skipn_all2 (n := Z.to_nat a)) by (unfold len in *; lia).
      replace (Z.to_nat (Z.min (upto + 1) (len text) - Z.min a (len text)))
        with O; [reflexivity|].
      unfold s, len in *. rewrite length_firstn in Hge. lia.
    - assert (a < len text /\ a < upto + 1) as [Ha1 Ha2] by lia.
      rewrite (Z.min_l a) by lia. rewrite firstn_skipn_comm. f_equal.
      unfold s.
      destruct (Z.le_gt_cases (upto + 1) (len text)).
      + rewrite Z.min_l by lia. f_equal. lia.
      + rewrite Z.min_r by lia.
        rewrite !firstn_all2; first [reflexivity | unfold len in *; lia]. }
  destruct (lastIndexIn_last nl s 0 (-1)) as [[E Hn] | (Hle & Hnth & Hn)].
  - rewrite E, Z.eqb_refl. split; [lia|]. split; [lia|]. split; [now left|].
    rewrite Hsl by lia. exact Hn.
  - set (r := lastIndexIn nl s 0 (-1)) in *.
    destruct (Z.eqb_spec r (-1)); [lia|].
    rewrite Z.sub_0_r in Hnth, Hn.
    split; [lia|]. split; [lia|]. split.
    + right. rewrite Z.add_simpl_r. unfold s in Hnth.
      rewrite nth_error_firstn in Hnth.
      destruct (Nat.ltb _ _); [exact Hnth | discriminate].
    + rewrite Hsl by lia.
      replace (Z.to_nat (r + 1)) with (S (Z.to_nat r)) by lia. exact Hn.
Qed.

(** X3: [findLineStart] returns the offset after the last newline at or
    before the index, or 0 when there is none; the newline at the index
    itself counts, so that the result is then after the index. *)
Theorem findLineStart_after_last_newline : forall text index,
  let upto := Z.max index 0 in
  0 <= findLineStart text index <= upto + 1
  /\ findLineStart text index <= len text
  /\ (findLineStart text index = 0
      \/ nth_error text (Z.to_nat (findLineStart text index - 1)) = Some nl)
  /\ ~ In nl (slice text (findLineStart text index) (upto + 1)).
Proof.
  exact findLineStart_spec.
Qed.

(** X4: [expandTableContext] never widens a region.  When the line of
    the index starts after offset 0 and is a table line, the call does
    not return; in every other case it returns the index as both
    ends. *)
Theorem expandTableContext_never_widens : forall text startIndex,
  let prevLine := findLineStart text startIndex in
  if (0 <? prevLine)
     && isTableLine (slice text prevLine (findLineEnd text prevLine))
  then forall fuel, expandTableContext fuel text startIndex = None
  else forall fuel,
         expandTableContext (S fuel) text startIndex
         = Some (startIndex, startIndex).
Proof.
  intros text startIndex prevLine.
  destruct ((0 <? prevLine)
            && isTableLine (slice text prevLine (findLineEnd text prevLine)))
    eqn:Hst; intros fuel.
  - destruct fuel as [|fuel]; [reflexivity|].
    rewrite expandTableContext_eq. unfold stalls. fold prevLine.
    now rewrite Hst.
  - rewrite expandTableContext_eq. unfold stalls. fold prevLine.
    now rewrite Hst.
Qed.

(* ------------------------------------------------------------------ *)
(** ** Rows of pipes after the first line *)

Lemma In_slice text a b k x :
  0 <= a <= k -> k < b -> nth_error text (Z.to_nat k) = Some x ->
  In x (slice text a b).
Proof.
  intros Ha Hb Hk.
  assert (Z.to_nat k < length text)%nat as Hlt by (apply nth_error_Some; congruence).
  unfold slice, relIndex, substr.
  destruct (Z.ltb_spec a 0); [lia|]. destruct (Z.ltb_spec b 0); [lia|].
  apply (nth_error_In _ (Z.to_nat (k - a))).
  rewrite nth_error_firstn.
  destruct (Nat.ltb_spec (Z.to_nat (k - a))
              (Z.to_nat (Z.min b (len text) - Z.min a (len text))));
    [|unfold len in *; lia].
  rewrite nth_error_skipn. rewrite <- Hk. f_equal. unfold len in *. lia.
Qed.

Lemma skipn_head {A} (l : list A) n x rest :
  skipn n l = x :: rest -> nth_error l n = Some x.
Proof. intros H. rewrite <- hd_error_skipn, H. reflexivity. Qed.

Lemma dot_not_newline b : forallb RegExp.dot b = true -> ~ In nl b.
Proof.
  rewrite forallb_forall. intros H Hin. apply H in Hin. discriminate.
Qed.

Lemma firstn_past {A} (x y : list A) m :
  (length x <= m)%nat -> firstn m (x ++ y) = x ++ firstn (m - length x) y.
Proof.
  intros H. rewrite firstn_app. f_equal. now apply firstn_all2.
Qed.

Section RowMatch.

Variable text : jsstring.
Variables (j : Z) (b c : jsstring).
Hypothesis j_nonneg : 0 <= j.
Hypothesis row_at_j : skipn (Z.to_nat j) text = pipe :: b ++ pipe :: c.
Hypothesis b_dot : forallb RegExp.dot b = true.

Let n : Z := len b + 2.

Lemma row_inside : j + n <= len text.
Proof.
  assert (length (skipn (Z.to_nat j) text) = S (length b + S (length c)))
    as H by (rewrite row_at_j; cbn; rewrite length_app; reflexivity).
  rewrite length_skipn in H. unfold n, len. lia.
Qed.

Lemma row_no_newline k :
  j <= k < j + n -> nth_error text (Z.to_nat k) <> Some nl.
Proof.
  intros Hk Hnl.
  assert (nth_error (skipn (Z.to_nat j) text) (Z.to_nat (k - j)) = Some nl) as H.
  { rewrite nth_error_skipn, <- Hnl. f_equal. lia. }
  rewrite row_at_j in H.
  change (pipe :: b ++ pipe :: c) with ((pipe :: b) ++ [pipe] ++ c) in H.
  rewrite app_assoc in H. rewrite nth_error_app1 in H
    by (rewrite length_app; cbn; unfold n, len in *; lia).
  apply nth_error_In in H. apply in_app_or in H.
  destruct H as [[H|H]|[H|[]]]; try discriminate.
  now apply dot_not_newline in H.
Qed.

(** The line of a match of [/\|.*\|/] starts at or before the match. *)
Lemma row_line_start : findLineStart text j <= j.
Proof.
  destruct (findLineStart_spec text j) as (H1 & _ & H3 & _).
  rewrite Z.max_l in H1 by lia.
  destruct (Z.eq_dec (findLineStart text j) (j + 1)) as [E|]; [|lia].
  destruct H3 as [H3|H3]; [lia|].
  rewrite E, Z.add_simpl_r in H3.
  exfalso. apply (row_no_newline j); [unfold n; pose proof (len_nonneg b); lia|].
  exact H3.
Qed.

(** The line of a match of [/\|.*\|/] is a table line. *)
Lemma row_line_isTableLine :
  isTableLine (slice text (findLineStart text j)
                 (findLineEnd text (findLineStart text j))) = true.
Proof.
  set (p := findLineStart text j).
  pose proof row_line_start as Hpj. fold p in Hpj.
  pose proof row_inside as Hin.
  assert (0 <= n) as Hn0 by (unfold n; pose proof (len_nonneg b); lia).
  destruct (findLineStart_spec text j) as ((Hp0 & _) & _ & _ & Hnl).
  fold p in Hp0, Hnl. rewrite Z.max_l in Hnl by lia.
  destruct (findLineEnd_spec text p) as ((He1 & He2) & _ & He3).
  rewrite Z.max_l, Z.min_l in He1 by lia.
  set (e := findLineEnd text p) in *.
  assert (j + n <= e) as Hje.
  { destruct (Z.le_gt_cases (j + n) e) as [|Hlt]; [assumption|].
    exfalso. specialize (He3 ltac:(lia)).
    destruct (Z.le_gt_cases e j) as [Hej|Hej].
    - apply Hnl. apply (In_slice text p (j + 1) e); [lia | lia | exact He3].
    - apply (row_no_newline e); [lia | exact He3]. }
  apply isTableLine_spec. right.
  rewrite slice_inside by lia. unfold substr.
  rewrite <- (substr_skipn text p j) by lia. rewrite row_at_j.
  exists (substr text p j), b.
  replace (substr text p j ++ pipe :: b ++ pipe :: c)
    with ((substr text p j ++ pipe :: b ++ [pipe]) ++ c)
    by (rewrite <- !app_assoc; cbn; now rewrite <- app_assoc).
  rewrite firstn_past.
  - eexists. split; [|exact b_dot].
    rewrite <- !app_assoc. cbn. rewrite <- app_assoc. reflexivity.
  - unfold substr. rewrite length_app, length_firstn, length_skipn. cbn.
    rewrite length_app. cbn. unfold n, len in *. lia.
Qed.

(** A match of [/\|.*\|/] on the first line: no newline up to its end. *)
Lemma row_on_first_line :
  findLineStart text j = 0 -> ~ In nl (firstn (Z.to_nat (j + n)) text).
Proof.
  intros Hp Hin.
  destruct (findLineStart_spec text j) as (_ & _ & _ & Hnl).
  rewrite Hp, Z.max_l in Hnl by lia.
  apply In_nth_error in Hin. destruct Hin as [k Hk].
  rewrite nth_error_firstn in Hk.
  destruct (Nat.ltb_spec k (Z.to_nat (j + n))); [|discriminate].
  replace k with (Z.to_nat (Z.of_nat k)) in Hk by lia.
  destruct (Z.le_gt_cases (Z.of_nat k) j).
  - apply Hnl. apply (In_slice text 0 (j + 1) (Z.of_nat k)); [lia | lia | exact Hk].
  - apply (row_no_newline (Z.of_nat k)); [lia | exact Hk].
Qed.

End RowMatch.

Lemma forPatterns_hangs text pattern after :
  (forall fuel sections, execLoop fuel text pattern sections = None) ->
  forall fuel before sections,
    forPatterns fuel text (before ++ pattern :: after) sections = None.
Proof.
  intros Hp fuel. induction before as [|p ps IH]; intros sections;
    cbn [app forPatterns].
  - now rewrite Hp.
  - destruct (execLoop fuel text p sections) as [[s1 p1]|]; [|reflexivity].
    now rewrite IH.
Qed.

Section RowAfterNewline.

Variables pre b c : jsstring.
Hypothesis newline_before : In nl pre.
Hypothesis b_dot : forallb RegExp.dot b = true.

Let text : jsstring := pre ++ pipe :: b ++ pipe :: c.

(** The loop of the pattern [/\|.*\|/g] does not end: a match on the
    first line is passed, the first match after it stalls the
    expansion, and there is one. *)
Lemma execLoop_row_hangs : forall fuel L sections,
  0 <= L <= len pre ->
  execLoop fuel text (RegExp.mk Pattern.tableRow true false L) sections = None.
Proof.
  induction fuel as [|fuel IH]; intros L sections HL; [reflexivity|].
  cbn [execLoop]. unfold RegExp.exec. cbn [RegExp.global RegExp.lastIndex].
  assert (len text = len pre + (len b + 2) + len c) as Hlen.
  { unfold text, len. rewrite length_app. cbn. rewrite length_app. cbn. lia. }
  pose proof (len_nonneg b). pose proof (len_nonneg c).
  destruct (Z.ltb_spec (len text) L); [lia|].
  rewrite Z.max_l by lia. unfold RegExp.searchAt.
  cbn [RegExp.multiline RegExp.source].
  assert (skipn (Z.to_nat L) text
          = skipn (Z.to_nat L) pre ++ pipe :: b ++ pipe :: c) as Hsk.
  { unfold text. rewrite skipn_app.
    replace (Z.to_nat L - length pre)%nat with O by (unfold len in *; lia).
    reflexivity. }
  destruct (tableRow_complete false None b c b_dot) as [n' Hn'].
  destruct (search_complete false _ (tableRow_blind false)
              (skipn (Z.to_nat L) pre) _ (RegExp.before text L) None L n' Hn')
    as (j & n & E & Hj).
  rewrite <- Hsk in E. rewrite E.
  assert (j <= len pre) as Hjq.
  { destruct Hj as [_ Hj]. unfold len in *. rewrite length_skipn in Hj. lia. }
  apply search_sound in E. destruct E as (_ & prev' & E).
  rewrite skipn_skipn in E.
  replace (Z.to_nat (j - L) + Z.to_nat L)%nat with (Z.to_nat j) in E by lia.
  apply tableRow_sound in E. destruct E as (b' & c' & Hrow & Hb' & ->).
  cbn [RegExp.index RegExp.setLastIndex RegExp.source RegExp.global
       RegExp.multiline].
  destruct fuel as [|fuel']; [reflexivity|].
  rewrite expandTableContext_eq.
  destruct (stalls text j) eqn:St; [reflexivity|].
  assert (0 <= j) as Hj0 by lia.
  unfold stalls in St. cbv zeta in St.
  rewrite (row_line_isTableLine text j b' c' Hj0 Hrow Hb'), andb_true_r in St.
  apply Z.ltb_ge in St.
  destruct (findLineStart_spec text j) as ((Hp0 & _) & _).
  pose proof (row_on_first_line text j b' c' Hj0 Hrow Hb' ltac:(lia)) as Hfirst.
  apply IH. split; [lia|].
  destruct (Z.le_gt_cases (j + Z.of_nat (S (S (length b')))) (len pre))
    as [|Hgt]; [assumption|].
  exfalso. apply Hfirst.
  apply (In_firstn nl (length pre)).
  rewrite firstn_firstn. rewrite Nat.min_l by (unfold len in *; lia).
  unfold text. rewrite firstn_app, Nat.sub_diag, firstn_all. cbn [firstn].
  rewrite app_nil_r. exact newline_before.
Qed.

End RowAfterNewline.

Lemma splitTextIntoDocuments_row_hangs createDocuments fuel pre b c :
  In nl pre -> forallb RegExp.dot b = true ->
  splitTextIntoDocuments createDocuments fuel newBankingDocumentSplitter
    (pre ++ pipe :: b ++ pipe :: c)
  = None.
Proof.
  intros Hnl Hb.
  unfold splitTextIntoDocuments, findTableSections.
  change (tablePatterns newBankingDocumentSplitter) with
    ([ RegExp.mk Pattern.tableCaption true false 0;
       RegExp.mk Pattern.schedule true false 0;
       RegExp.mk Pattern.exhibit true false 0 ]
     ++ RegExp.mk Pattern.tableRow true false 0
     :: [ RegExp.mk Pattern.tableSeparator true true 0 ]).
  rewrite forPatterns_hangs; [reflexivity|].
  intros fuel' sections. apply execLoop_row_hangs; auto.
  pose proof (len_nonneg pre). lia.
Qed.

(** X5: a text with a row of pipes after its first line, two pipes with
    no line terminator between them somewhere after a newline, keeps
    [splitTextIntoDocuments] from returning, whatever else the text
    holds. *)
Theorem pipe_row_after_first_line_hangs :
  forall createDocuments fuel pre b c,
  In nl pre -> forallb RegExp.dot b = true ->
  splitTextIntoDocuments createDocuments fuel newBankingDocumentSplitter
    (pre ++ pipe :: b ++ pipe :: c)
  = None.
Proof.
  intros. now apply splitTextIntoDocuments_row_hangs.
Qed.

Lemma pipe_row_after_first_line_hangs_witness :
  In nl (lit "Rates" ++ [nl])
  /\ forallb RegExp.dot (lit " 3.5% ") = true
  /\ splitTextIntoDocuments wholeTexts 100 newBankingDocumentSplitter
       ((lit "Rates" ++ [nl]) ++ pipe :: lit " 3.5% " ++ pipe :: lit " 30yr |")
     = None.
Proof.
  assert (In nl (lit "Rates" ++ [nl])) as H1
    by (apply in_or_app; right; now left).
  split; [exact H1|]. split; [reflexivity|].
  exact (pipe_row_after_first_line_hangs wholeTexts 100
           (lit "Rates" ++ [nl]) (lit " 3.5% ") (lit " 30yr |") H1 eq_refl).
Defined.

(* ------------------------------------------------------------------ *)
(** ** Texts on which the call returns *)

(** X6: when no line after the first is a table line, the call returns
    (two rounds more than the text has code units are enough) and
    leaves the patterns as the constructor made them. *)
Theorem no_table_line_after_first_returns :
  forall createDocuments text,
  (forall p, 0 < p -> nth_error text (Z.to_nat (p - 1)) = Some nl ->
             isTableLine (slice text p (findLineEnd text p)) = false) ->
  exists chunks,
    splitTextIntoDocuments createDocuments (S (S (Z.to_nat (len text))))
      newBankingDocumentSplitter text
    = Some (chunks, newBankingDocumentSplitter).
Proof.
  intros createDocuments text Hlines.
  apply splitTextIntoDocuments_returns. intros i.
  unfold stalls. cbv zeta.
  destruct (Z.ltb_spec 0 (findLineStart text i)) as [Hpos|_]; [|reflexivity].
  cbn [andb]. apply Hlines; [exact Hpos|].
  now apply findLineStart_after_newline.
Qed.

Lemma no_table_line_after_first_returns_witness :
  (forall p, 0 < p ->
     nth_error (lit "Exhibit 7" ++ [nl] ++ lit "rates") (Z.to_nat (p - 1))
     = Some nl ->
     isTableLine (slice (lit "Exhibit 7" ++ [nl] ++ lit "rates") p
                    (findLineEnd (lit "Exhibit 7" ++ [nl] ++ lit "rates") p))
     = false)
  /\ exists chunks,
       splitTextIntoDocuments wholeTexts 17 newBankingDocumentSplitter
         (lit "Exhibit 7" ++ [nl] ++ lit "rates")
       = Some (chunks, newBankingDocumentSplitter).
Proof.
  assert (forall p, 0 < p ->
     nth_error (lit "Exhibit 7" ++ [nl] ++ lit "rates") (Z.to_nat (p - 1))
     = Some nl ->
     isTableLine (slice (lit "Exhibit 7" ++ [nl] ++ lit "rates") p
                    (findLineEnd (lit "Exhibit 7" ++ [nl] ++ lit "rates") p))
     = false) as H.
  { intros p Hp Hn.
    assert (p = 10) as ->; [|reflexivity].
    remember (Z.to_nat (p - 1)) as k eqn:Hk.
    do 9 (destruct k as [|k]; [discriminate|]).
    destruct k as [|k]; [lia|].
    do 5 (destruct k as [|k]; [discriminate|]).
    destruct k; discriminate. }
  split; [exact H|].
  exact (no_table_line_after_first_returns wholeTexts
           (lit "Exhibit 7" ++ [nl] ++ lit "rates") H).
Defined.

(* ------------------------------------------------------------------ *)
(** ** Merging any list of sections *)

Lemma Sorted_snoc {A} (R : A -> A -> Prop) l a b :
  Sorted R (l ++ [a]) -> R a b -> Sorted R ((l ++ [a]) ++ [b]).
Proof.
  intros Hs Hab. induction l as [|x l IH]; cbn [app] in *.
  - repeat constructor. exact Hab.
  - apply Sorted_inv in Hs. destruct Hs as [Hs Hx].
    constructor; [now apply IH|].
    destruct l; cbn [app] in *; constructor; now inversion Hx.
Qed.

Lemma Sorted_snoc_change {A} (R : A -> A -> Prop) l a a' :
  (forall x, R x a -> R x a') -> Sorted R (l ++ [a]) -> Sorted R (l ++ [a']).
Proof.
  intros Ha. induction l as [|x l IH]; cbn [app]; [repeat constructor|].
  intros Hs. apply Sorted_inv in Hs. destruct Hs as [Hs Hx].
  constructor; [now apply IH|].
  destruct l; cbn [app] in *; constructor; inversion Hx; auto.
Qed.

(** Whatever the sections, each merged section starts more than the
    tolerance after the end of the one before it. *)
Lemma mergeLoop_Sorted_apart : forall rest done last,
  Sorted apart (done ++ [last]) -> Sorted apart (mergeLoop done last rest).
Proof.
  induction rest as [|current rest IH]; intros done last Hs; cbn [mergeLoop];
    [exact Hs|].
  destruct (Z.leb_spec (start current) (end_ last + 50)).
  - apply IH. revert Hs. apply Sorted_snoc_change. now unfold apart, absorb.
  - apply IH. apply Sorted_snoc; [exact Hs | unfold apart; lia].
Qed.

(** Merging keeps the order of the starts. *)
Lemma mergeLoop_Sorted_byStart : forall rest done last,
  Sorted byStart (done ++ [last]) -> Sorted byStart (last :: rest) ->
  Sorted byStart (mergeLoop done last rest).
Proof.
  induction rest as [|current rest IH]; intros done last Hd Hr; cbn [mergeLoop];
    [exact Hd|].
  apply Sorted_inv in Hr. destruct Hr as [Hr Hlc]. apply HdRel_inv in Hlc.
  destruct (Z.leb_spec (start current) (end_ last + 50)).
  - apply IH.
    + revert Hd. apply Sorted_snoc_change. now unfold byStart, absorb.
    + apply Sorted_inv in Hr. destruct Hr as [Hr Hc].
      constructor; [exact Hr|].
      destruct Hc; constructor. unfold byStart, absorb in *. cbn. lia.
  - apply IH; [now apply Sorted_snoc | exact Hr].
Qed.

Lemma sortByStart_sorted l : Sorted byStart l -> sortByStart l = l.
Proof.
  induction 1 as [|x l Hl IH Hx]; [reflexivity|].
  cbn [sortByStart]. rewrite IH.
  destruct Hx as [|y l Hxy]; [reflexivity|]. cbn [insertByStart].
  unfold byStart in Hxy. destruct (Z.leb_spec (start x) (start y)); [reflexivity|lia].
Qed.

Lemma mergeLoop_apart_id : forall rest done last,
  Sorted apart (last :: rest) -> mergeLoop done last rest = done ++ last :: rest.
Proof.
  induction rest as [|current rest IH]; intros done last Hs; [reflexivity|].
  apply Sorted_inv in Hs. destruct Hs as [Hs Hlc]. apply HdRel_inv in Hlc.
  cbn [mergeLoop]. unfold apart in Hlc.
  destruct (Z.leb_spec (start current) (end_ last + 50)); [lia|].
  rewrite IH by exact Hs. now rewrite <- app_assoc.
Qed.

Lemma mergeOverlappingSections_Sorted sections :
  Sorted apart (mergeOverlappingSections sections)
  /\ Sorted byStart (mergeOverlappingSections sections).
Proof.
  unfold mergeOverlappingSections.
  pose proof (sortByStart_Sorted sections) as Hs.
  destruct (sortByStart sections) as [|first rest]; [split; constructor|].
  split.
  - apply mergeLoop_Sorted_apart. repeat constructor.
  - apply mergeLoop_Sorted_byStart; [repeat constructor | exact Hs].
Qed.

(** X7: merging what was merged changes nothing, whatever the sections
    are. *)
Theorem mergeOverlappingSections_idempotent : forall sections,
  mergeOverlappingSections (mergeOverlappingSections sections)
  = mergeOverlappingSections sections.
Proof.
  intros sections.
  destruct (mergeOverlappingSections_Sorted sections) as [Ha Hs].
  unfold mergeOverlappingSections at 1.
  rewrite (sortByStart_sorted _ Hs).
  destruct (mergeOverlappingSections sections) as [|first rest]; [reflexivity|].
  now apply mergeLoop_apart_id.
Qed.

Lemma insertByStart_In x y l : In x (y :: l) -> In x (insertByStart y l).
Proof.
  induction l as [|z l IH]; cbn [insertByStart]; [trivial|].
  destruct (start y <=? start z); [trivial|].
  intros [->|[->|H]].
  - right. apply IH. now left.
  - now left.
  - right. apply IH. now right.
Qed.

Lemma sortByStart_In x l : In x l -> In x (sortByStart l).
Proof.
  induction l as [|y l IH]; [trivial|]. cbn [sortByStart].
  intros [->|H]; apply insertByStart_In; [now left | right; now apply IH].
Qed.

Lemma mergeLoop_covers s : forall rest done last,
  Sorted byStart (last :: rest) ->
  In s rest
  \/ (start last <= start s /\ end_ s <= end_ last)
  \/ (exists r, In r done /\ start r <= start s /\ end_ s <= end_ r) ->
  exists r, In r (mergeLoop done last rest)
            /\ start r <= start s /\ end_ s <= end_ r.
Proof.
  induction rest as [|current rest IH]; intros done last Hs H; cbn [mergeLoop].
  - destruct H as [[]|[H|(r & Hr & H)]].
    + exists last. split; [apply in_or_app; right; now left | exact H].
    + exists r. split; [apply in_or_app; now left | exact H].
  - apply Sorted_inv in Hs. destruct Hs as [Hs Hlc]. apply HdRel_inv in Hlc.
    unfold byStart in Hlc.
    destruct (Z.leb_spec (start current) (end_ last + 50)).
    + apply IH.
      * apply Sorted_inv in Hs. destruct Hs as [Hs Hc].
        constructor; [exact Hs|].
        destruct Hc; constructor. unfold byStart, absorb in *. cbn. lia.
      * destruct H as [[->|H]|[H|H]]; [right; left | now left | right; left | now right; right];
          unfold absorb; cbn; lia.
    + apply IH; [exact Hs|].
      destruct H as [[->|H]|[H|(r & Hr & H)]].
      * right. left. lia.
      * now left.
      * right. right. exists last. split; [apply in_or_app; right; now left | exact H].
      * right. right. exists r. split; [apply in_or_app; now left | exact H].
Qed.

(** X8: no section is lost in merging: each one lies inside one of the
    merged sections, whatever the sections are. *)
Theorem mergeOverlappingSections_covers : forall sections s,
  In s sections ->
  exists r, In r (mergeOverlappingSections sections)
            /\ start r <= start s /\ end_ s <= end_ r.
Proof.
  intros sections s Hin. apply sortByStart_In in Hin.
  unfold mergeOverlappingSections.
  pose proof (sortByStart_Sorted sections) as Hs.
  destruct (sortByStart sections) as [|first rest]; [contradiction|].
  apply mergeLoop_covers; [exact Hs|].
  destruct Hin as [->|Hin]; [right; left; lia | now left].
Qed.

Lemma mergeOverlappingSections_covers_witness :
  In (mkSection 80 90 (lit "z"))
     [mkSection 80 90 (lit "z"); mkSection 0 100 (lit "x");
      mkSection 120 130 (lit "y")]
  /\ exists r,
       In r (mergeOverlappingSections
               [mkSection 80 90 (lit "z"); mkSection 0 100 (lit "x");
                mkSection 120 130 (lit "y")])
       /\ start r <= 80 /\ 90 <= end_ r.
Proof.
  assert (In (mkSection 80 90 (lit "z"))
     [mkSection 80 90 (lit "z"); mkSection 0 100 (lit "x");
      mkSection 120 130 (lit "y")]) as H by (now left).
  split; [exact H|].
  exact (mergeOverlappingSections_covers _ _ H).
Defined.

(* ------------------------------------------------------------------ *)
(** ** Where regions start and end *)

Section Hits.
Import RegExp.

(** Where a search succeeds the items match, the character before the
    position being the one of the text. *)
Lemma search_hit m r : forall s prev i j n,
  search m r prev s i = Some (j, n) ->
  run m r (if j =? i then prev else nth_error s (Z.to_nat (j - i - 1)))
      (skipn (Z.to_nat (j - i)) s) = Some n.
Proof.
  induction s as [|c s IH]; intros prev i j n; cbn [search].
  - destruct (run m r prev []) eqn:E; [|discriminate].
    intros [= <- <-]. now rewrite Z.eqb_refl, Z.sub_diag.
  - destruct (run m r prev (c :: s)) eqn:E.
    + intros [= <- <-]. now rewrite Z.eqb_refl, Z.sub_diag.
    + intros H. pose proof (search_range _ _ _ _ _ _ _ H) as Hr.
      apply IH in H.
      destruct (Z.eqb_spec j i); [lia|].
      replace (Z.to_nat (j - i)) with (S (Z.to_nat (j - (i + 1)))) by lia.
      cbn [skipn].
      destruct (Z.eqb_spec j (i + 1)) as [->|].
      * replace (Z.to_nat (i + 1 - i - 1)) with O by lia. exact H.
      * replace (Z.to_nat (j - i - 1)) with (S (Z.to_nat (j - (i + 1) - 1)))
          by lia.
        exact H.
Qed.

(** The match [exec] returns is a match of the pattern at
    [match.index], and not empty when the pattern consumes. *)
Lemma exec_hit re s m re' :
  consumes (source re) = true ->
  exec re s = (Some m, re') ->
  0 <= index m
  /\ exists n, run (multiline re) (source re) (before s (index m))
                   (skipn (Z.to_nat (index m)) s) = Some n
               /\ (1 <= n)%nat.
Proof.
  intros Hc Hex. pose proof (exec_index _ _ _ _ Hex) as [Hi _].
  split; [exact Hi|]. revert Hex. unfold exec.
  assert (forall from j n, 0 <= from ->
            searchAt re s from = Some (j, n) ->
            run (multiline re) (source re) (before s j)
                (skipn (Z.to_nat j) s) = Some n /\ (1 <= n)%nat) as Hat.
  { unfold searchAt. intros from j n Hf E.
    pose proof (search_progress _ _ _ _ _ _ _ Hc E) as Hn.
    pose proof (search_range _ _ _ _ _ _ _ E) as Hr.
    apply search_hit in E. split; [|exact Hn].
    rewrite skipn_skipn in E.
    replace (Z.to_nat (j - from) + Z.to_nat from)%nat with (Z.to_nat j) in E
      by lia.
    destruct (Z.eqb_spec j from) as [->|Hne]; [exact E|].
    rewrite nth_error_skipn in E.
    replace (Z.to_nat from + Z.to_nat (j - from - 1))%nat
      with (Z.to_nat (j - 1)) in E by lia.
    unfold before at 1. destruct (Z.leb_spec j 0); [lia | exact E]. }
  destruct (global re).
  - destruct (len s <? lastIndex re); [discriminate|].
    destruct (searchAt re s (Z.max (lastIndex re) 0)) as [[j n]|] eqn:E;
      [|discriminate].
    intros [= <- _]. cbn [index]. exists n.
    apply (Hat (Z.max (lastIndex re) 0) _ _ ltac:(lia) E).
  - destruct (searchAt re s 0) as [[j n]|] eqn:E; [|discriminate].
    intros [= <- _]. cbn [index]. exists n. apply (Hat 0 _ _ ltac:(lia) E).
Qed.

End Hits.

Lemma newBankingDocumentSplitter_consumes p :
  In p (tablePatterns newBankingDocumentSplitter) ->
  RegExp.consumes (RegExp.source p) = true.
Proof.
  intros Hp. repeat (destruct Hp as [<-|Hp]; [reflexivity|]). contradiction.
Qed.

Section Seeds.

Variable text : jsstring.

Let seededAt (patterns : list RegExp.t) (s : TableSection) : Prop :=
  end_ s = start s /\ matchAt text patterns (start s).

Lemma execLoop_hits patterns pattern0 :
  In pattern0 patterns ->
  RegExp.consumes (RegExp.source pattern0) = true ->
  forall fuel pattern sections sections' pattern',
  RegExp.source pattern = RegExp.source pattern0 ->
  RegExp.multiline pattern = RegExp.multiline pattern0 ->
  execLoop fuel text pattern sections = Some (sections', pattern') ->
  Forall (seededAt patterns) sections -> Forall (seededAt patterns) sections'.
Proof.
  intros Hin Hc.
  induction fuel as [|fuel IH]; intros pattern sections sections' pattern' Hs Hm;
    [discriminate|].
  cbn [execLoop].
  destruct (RegExp.exec pattern text) as [[m|] p1] eqn:Ex;
    [|intros [= <- <-]; trivial].
  destruct (expandTableContext fuel text (RegExp.index m)) as [[s e]|] eqn:E;
    [|discriminate].
  apply expandTableContext_degenerate in E. destruct E as [-> ->].
  destruct (exec_object _ _ _ _ Ex) as (Hs1 & _ & Hm1 & _).
  intros H Hall.
  assert (RegExp.source p1 = RegExp.source pattern0) as Hs2 by congruence.
  assert (RegExp.multiline p1 = RegExp.multiline pattern0) as Hm2 by congruence.
  apply (IH _ _ _ _ Hs2 Hm2 H).
  apply Forall_app. split; [exact Hall|]. constructor; [|constructor].
  assert (RegExp.consumes (RegExp.source pattern) = true) as Hc' by congruence.
  destruct (exec_hit _ _ _ _ Hc' Ex) as (H0 & n & Hn & Hn1).
  split; [reflexivity|]. split; [exact H0|].
  exists pattern0, n. rewrite <- Hs, <- Hm. now repeat split.
Qed.

Lemma forPatterns_hits fuel patterns0 : forall patterns sections sections' patterns',
  (forall p, In p patterns ->
     In p patterns0 /\ RegExp.consumes (RegExp.source p) = true) ->
  forPatterns fuel text patterns sections = Some (sections', patterns') ->
  Forall (seededAt patterns0) sections -> Forall (seededAt patterns0) sections'.
Proof.
  induction patterns as [|p ps IH]; intros sections sections' patterns' Hps;
    cbn [forPatterns].
  - intros [= <- <-]. trivial.
  - destruct (execLoop fuel text p sections) as [[s1 p1]|] eqn:E; [|discriminate].
    destruct (forPatterns fuel text ps s1) as [[s2 ps2]|] eqn:E2; [|discriminate].
    intros [= <- <-] Hall.
    destruct (Hps p (or_introl eq_refl)) as [Hin Hc].
    apply (IH _ _ _ (fun q Hq => Hps q (or_intror Hq)) E2).
    exact (execLoop_hits patterns0 p Hin Hc _ _ _ _ _ eq_refl eq_refl E Hall).
Qed.

Lemma insertByStart_Forall_inv (P : TableSection -> Prop) x l :
  Forall P (x :: l) -> Forall P (insertByStart x l).
Proof.
  intros H. apply Forall_cons_iff in H. destruct H.
  now apply insertByStart_Forall.
Qed.

(** Both ends of a merged section are ends of sections merged. *)
Lemma mergeLoop_ends (P : Z -> Prop) : forall rest done last,
  Forall (fun r => P (start r) /\ P (end_ r)) done ->
  P (start last) /\ P (end_ last) ->
  Forall (fun r => P (start r) /\ P (end_ r)) rest ->
  Forall (fun r => P (start r) /\ P (end_ r)) (mergeLoop done last rest).
Proof.
  induction rest as [|current rest IH]; intros done last Hd Hl Hr;
    cbn [mergeLoop].
  - apply Forall_app. split; [exact Hd | now constructor].
  - apply Forall_cons_iff in Hr. destruct Hr as [Hc Hr].
    destruct (start current <=? end_ last + 50).
    + apply IH; auto. unfold absorb. cbn. split; [apply Hl|].
      destruct (Z.max_spec (end_ last) (end_ current)) as [[_ ->]|[_ ->]];
        [apply Hc | apply Hl].
    + apply IH; auto. apply Forall_app. split; [exact Hd | now constructor].
Qed.

(** X9: every region [findTableSections] returns starts where a pattern
    matches and ends where a pattern matches: the text of the match at
    its end is outside the region. *)
Theorem regions_run_from_match_to_match : forall fuel regions this',
  findTableSections fuel newBankingDocumentSplitter text
  = Some (regions, this') ->
  forall r, In r regions ->
  matchAt text (tablePatterns newBankingDocumentSplitter) (start r)
  /\ matchAt text (tablePatterns newBankingDocumentSplitter) (end_ r).
Proof.
  intros fuel regions this'. unfold findTableSections.
  destruct (forPatterns fuel text (tablePatterns newBankingDocumentSplitter) [])
    as [[sections ps]|] eqn:E; [|discriminate].
  intros [= <- _].
  assert (Forall (seededAt (tablePatterns newBankingDocumentSplitter)) sections)
    as Hs.
  { apply (forPatterns_hits fuel _ _ _ _ _
             (fun p Hp => conj Hp (newBankingDocumentSplitter_consumes p Hp)) E).
    constructor. }
  assert (Forall (fun r => matchAt text (tablePatterns newBankingDocumentSplitter) (start r)
                           /\ matchAt text (tablePatterns newBankingDocumentSplitter) (end_ r))
                 (mergeOverlappingSections sections)) as Hall.
  { unfold mergeOverlappingSections.
    assert (Forall (fun r => matchAt text (tablePatterns newBankingDocumentSplitter) (start r)
                             /\ matchAt text (tablePatterns newBankingDocumentSplitter) (end_ r))
                   (sortByStart sections)) as Hsorted.
    { apply sortByStart_Forall. eapply Forall_impl; [|exact Hs].
      intros s [He Hh]. cbv beta. rewrite He. now split. }
    destruct (sortByStart sections) as [|first rest]; [constructor|].
    apply Forall_cons_iff in Hsorted. destruct Hsorted as [Hf Hr].
    apply (mergeLoop_ends (matchAt text (tablePatterns newBankingDocumentSplitter)));
      auto. }
  rewrite Forall_forall in Hall. exact Hall.
Qed.

End Seeds.

Lemma regions_run_from_match_to_match_witness :
  exists regions r,
    findTableSections 3 newBankingDocumentSplitter captions
    = Some (regions, newBankingDocumentSplitter)
    /\ In r regions
    /\ (start r, end_ r) = (0, 44)
    /\ matchAt captions (tablePatterns newBankingDocumentSplitter) 0
    /\ matchAt captions (tablePatterns newBankingDocumentSplitter) 44.
Proof.
  eexists. eexists. split; [vm_compute; reflexivity|].
  split; [left; reflexivity|]. split; [reflexivity|].
  exact (regions_run_from_match_to_match captions 3 _ newBankingDocumentSplitter
           eq_refl _ (or_introl eq_refl)).
Defined.

(* ------------------------------------------------------------------ *)
(** ** The extension of a file name *)

Lemma split_last_segment sep : forall s,
  exists e,
    pop (split sep s) = Some e /\ ~ In sep e
    /\ ((split sep s = [e] /\ s = e)
        \/ (exists pre first rest,
              s = pre ++ sep :: e /\ split sep s = first :: rest
              /\ rest <> [])).
Proof.
  induction s as [|c s IH].
  - exists []. cbn. repeat split; auto.
  - destruct IH as (e & Hpop & He & Hs). cbn [split].
    destruct (N.eqb_spec c sep) as [->|Hne].
    + exists e. split; [|split; [exact He|right]].
      * destruct (split sep s) as [|x l] eqn:E; [discriminate | exact Hpop].
      * destruct Hs as [[Hsp ->] | (pre & first & rest & -> & Hsp & Hr)].
        -- exists [], [], [e]. rewrite Hsp. repeat split; auto. discriminate.
        -- exists (sep :: pre), [], (first :: rest). rewrite Hsp.
           repeat split; auto. discriminate.
    + destruct Hs as [[Hsp ->] | (pre & first & rest & -> & Hsp & Hr)].
      * exists (c :: e). rewrite Hsp. cbn. split; [reflexivity|]. split.
        -- intros [H|H]; [congruence | contradiction].
        -- now left.
      * exists e. rewrite Hsp in *. split; [|split; [exact He|right]].
        -- destruct rest; [contradiction | exact Hpop].
        -- exists (c :: pre), (c :: first), rest. repeat split; auto.
Qed.

(** X10: the extension [extractText] decides on is never missing: it is
    the part of the name after its last dot, free of dots, and the
    whole name when the name has no dot. *)
Theorem extension_after_last_dot : forall s,
  exists e,
    pop (split 46%N s) = Some e /\ ~ In 46%N e
    /\ (s = e \/ exists pre, s = pre ++ 46%N :: e).
Proof.
  intros s. destruct (split_last_segment 46%N s) as (e & Hp & He & Hs).
  exists e. repeat split; auto.
  destruct Hs as [[_ ->] | (pre & _ & _ & -> & _)]; [now left | right; eauto].
Qed.

Section ProcessorFacts.

Variables Foreign Buffer Embedding : Type.
Variable env : Environment Foreign Buffer Embedding.

(** X11: a file whose extension is none of pdf, docx, doc, txt makes
    [processDocument] throw the wrapped error after one line on the
    console: no identifier is drawn and nothing is asked of the
    embedding service or the tables. *)
Theorem unsupported_extension_reaches_nothing :
  forall fuel fileBuffer fileName documentType metadata w e,
  pop (split 46%N (toLowerCase env fileName)) = Some e ->
  existsb (streq e) [lit "pdf"; lit "docx"; lit "doc"; lit "txt"] = false ->
  processDocument env fuel fileBuffer fileName documentType metadata w
  = Threw (ErrorObject (lit "Failed to process document: " ++ lit "Error: "
                        ++ lit "Unsupported file type: " ++ e))
      (mkWorld
         (history w
          ++ [ConsoleError Foreign (lit "Document processing error:")
                (ErrorObject (lit "Unsupported file type: " ++ e))])
         (tableSplitter w)).
Proof.
  intros fuel fileBuffer fileName documentType metadata w e Hext Hno.
  cbn [existsb] in Hno. rewrite !orb_false_iff in Hno.
  destruct Hno as (H1 & H2 & H3 & H4 & _).
  unfold processDocument, tryCatch, bind at 1, extractText.
  rewrite Hext, H1, H2, H3, H4. reflexivity.
Qed.

End ProcessorFacts.

Lemma unsupported_extension_reaches_nothing_witness :
  pop (split 46%N (toLowerCase calmEnvironment (lit "notes.v2.md")))
  = Some (lit "md")
  /\ existsb (streq (lit "md")) [lit "pdf"; lit "docx"; lit "doc"; lit "txt"]
     = false
  /\ processDocument calmEnvironment 5 (lit "| a |") (lit "notes.v2.md")
       (lit "rate_sheet") [] (@newWorld unit)
     = Threw (ErrorObject (lit "Failed to process document: " ++ lit "Error: "
                           ++ lit "Unsupported file type: " ++ lit "md"))
         (mkWorld
            (history (@newWorld unit)
             ++ [ConsoleError unit (lit "Document processing error:")
                   (ErrorObject (lit "Unsupported file type: " ++ lit "md"))])
            (tableSplitter (@newWorld unit))).
Proof.
  split; [reflexivity|]. split; [reflexivity|].
  exact (unsupported_extension_reaches_nothing unit jsstring Z calmEnvironment
           5 (lit "| a |") (lit "notes.v2.md") (lit "rate_sheet") [] (@newWorld unit)
           (lit "md") eq_refl eq_refl).
Defined.

(* ------------------------------------------------------------------ *)
(** ** Storing the chunks *)

Lemma insertedChunks_app {Foreign} (a b : list (Event Foreign)) :
  insertedChunks (a ++ b) = insertedChunks a ++ insertedChunks b.
Proof.
  induction a as [|ev a IH]; [reflexivity|].
  destruct ev; cbn [app insertedChunks]; rewrite ?IH, <- ?app_assoc; reflexivity.
Qed.

(** A batch of the loop of [storeChunks]: the next ten chunks, or what
    is left. *)
Lemma arraySlice_batch {A} (l : list A) i :
  0 <= i -> arraySlice l i (i + 10) = firstn 10 (skipn (Z.to_nat i) l).
Proof.
  intros Hi. unfold arraySlice, relIndex.
  destruct (Z.ltb_spec i 0); [lia|]. destruct (Z.ltb_spec (i + 10) 0); [lia|].
  set (n := Z.of_nat (length l)).
  destruct (Z.le_gt_cases n i).
  - rewrite (Z.min_r i) by lia.
    rewrite !skipn_all2 by lia. now rewrite !firstn_nil.
  - rewrite (Z.min_l i) by lia.
    destruct (Z.le_gt_cases (i + 10) n).
    + rewrite Z.min_l by lia. f_equal. lia.
    + rewrite Z.min_r by lia.
      rewrite !firstn_all2; [reflexivity | |]; rewrite length_skipn; lia.
Qed.

Lemma firstn_map_app {A B} (f : A -> B) (a b : list A) :
  firstn (length a) (map f (a ++ b)) = map f a.
Proof.
  rewrite map_app, firstn_app, length_map, Nat.sub_diag.
  cbn [firstn]. rewrite app_nil_r. apply firstn_all2. now rewrite length_map.
Qed.

Lemma map_seq_from {B} (f : nat -> B) : forall m a,
  map f (seq a m) = map (fun k => f (a + k)%nat) (seq 0 m).
Proof.
  induction m as [|m IH]; intros a; [reflexivity|].
  cbn [seq map]. rewrite Nat.add_0_r. f_equal.
  rewrite (IH (S a)), <- seq_shift, map_map.
  apply map_ext. intros k. f_equal. lia.
Qed.

Section StoreFacts.

Variables Foreign Buffer Embedding : Type.
Variable env : Environment Foreign Buffer Embedding.

(** The rows of a batch: one for each chunk, in order, numbered from
    [i + index]; making them asks nothing of the services. *)
Lemma chunkRecords_rows documentId embeddings i : forall batch index w,
  exists rows evs,
    chunkRecords env documentId embeddings i batch index w
    = Returned rows (mkWorld (history w ++ evs) (tableSplitter w))
    /\ Forall (fun ev => reachesService ev = false) evs
    /\ map chunk_content rows = map pageContent batch
    /\ map chunk_metadata rows = map metadata batch
    /\ map chunk_index rows
       = map (fun k => i + index + Z.of_nat k) (seq 0 (length batch))
    /\ Forall (fun r => chunk_document_id r = documentId) rows.
Proof.
  induction batch as [|chunk rest IH]; intros index w.
  - exists [], []. cbn. rewrite app_nil_r. destruct w. repeat split; constructor.
  - cbn [chunkRecords]. unfold bind, call. cbn [history tableSplitter].
    destruct (IH (index + 1)
                (mkWorld ((history w ++ [Uuid Foreign]) ++ [Now Foreign])
                   (tableSplitter w)))
      as (rows & evs & -> & Hq & Hc & Hm & Hi & Hd).
    cbn [history tableSplitter]. unfold ret.
    eexists _, (Uuid Foreign :: Now Foreign :: evs).
    split; [now rewrite <- !app_assoc|].
    split; [repeat constructor; exact Hq|].
    cbn [map length seq chunk_content chunk_metadata]. rewrite Hc, Hm, Hi.
    split; [reflexivity|]. split; [reflexivity|]. split.
    + cbn [chunk_index]. f_equal; [lia|]. rewrite <- seq_shift, map_map.
      apply map_ext. intros k. lia.
    + constructor; [reflexivity | exact Hd].
Qed.

Lemma Forall_quiet_insertedChunks (evs : list (Event Foreign)) :
  Forall (fun ev => reachesService ev = false) evs -> insertedChunks evs = [].
Proof.
  induction 1 as [|ev evs Hev _ IH]; [reflexivity|].
  destruct ev; try discriminate; exact IH.
Qed.

Lemma bind_Returned {A B} (c : M Foreign A) (k : A -> M Foreign B) w a w' :
  c w = Returned a w' -> bind c k w = k a w'.
Proof. unfold bind. now intros ->. Qed.

Lemma bind_Threw {A B} (c : M Foreign A) (k : A -> M Foreign B) w e w' :
  c w = Threw e w' -> bind c k w = Threw e w'.
Proof. unfold bind. now intros ->. Qed.

Lemma bind_Hangs {A B} (c : M Foreign A) (k : A -> M Foreign B) w w' :
  c w = Hangs w' -> bind c k w = Hangs w'.
Proof. unfold bind. now intros ->. Qed.

Lemma call_eq {A} ev (answer : list (Event Foreign) -> A) w :
  call ev answer w
  = Returned (answer (history w ++ [ev]))
      (mkWorld (history w ++ [ev]) (tableSplitter w)).
Proof. reflexivity. Qed.

(** [embedDocuments] asks the embedding service once; a failure is
    written to the console and thrown on, wrapped. *)
Lemma embedDocuments_outcome texts w :
  embedDocuments env texts w
  = match embedDocumentsResult env (history w ++ [EmbedDocuments Foreign texts]) with
    | inr embeddings =>
        Returned embeddings
          (mkWorld (history w ++ [EmbedDocuments Foreign texts]) (tableSplitter w))
    | inl e =>
        Threw (ErrorObject (lit "Failed to generate embeddings: "
                            ++ foreignToString env e))
          (mkWorld
             (history w
              ++ [EmbedDocuments Foreign texts;
                  ConsoleError Foreign (lit "Error embedding documents:")
                    (ForeignValue e)])
             (tableSplitter w))
    end.
Proof.
  unfold embedDocuments. rewrite (bind_Returned _ _ _ _ _ (call_eq _ _ _)).
  destruct (embedDocumentsResult env _); [|reflexivity].
  rewrite (bind_Returned _ _ _ _ _ (call_eq _ _ _)).
  unfold throw. cbn [history tableSplitter]. now rewrite <- app_assoc.
Qed.

Lemma storeLoop_rows documentId chunks : forall rounds i w,
  0 <= i ->
  exists evs,
    history (worldOf (storeLoop env rounds documentId chunks i w))
    = history w ++ evs
    /\ tableSplitter (worldOf (storeLoop env rounds documentId chunks i w))
       = tableSplitter w
    /\ (forall w', storeLoop env rounds documentId chunks i w <> Hangs w')
    /\ rowsFollow documentId chunks i (insertedChunks evs)
    /\ batchesOfTen evs
    /\ (forall u w',
          storeLoop env rounds documentId chunks i w = Returned u w' ->
          (length chunks - Z.to_nat i <= 10 * rounds)%nat ->
          length (insertedChunks evs) = (length chunks - Z.to_nat i)%nat).
Proof.
  induction rounds as [|rounds IH]; intros i w Hi.
  - exists []. cbn. rewrite app_nil_r.
    repeat split; try constructor; try discriminate. intros. lia.
  - cbn [storeLoop].
    destruct (Z.ltb_spec i (Z.of_nat (length chunks))) as [Hlt|Hge].
    2:{ exists []. cbn. rewrite app_nil_r.
        repeat split; try constructor; try discriminate. intros. lia. }
    rewrite arraySlice_batch by exact Hi.
    set (batch := firstn 10 (skipn (Z.to_nat i) chunks)).
    assert (skipn (Z.to_nat i) chunks
            = batch ++ skipn (Z.to_nat (i + 10)) chunks) as Hsplit.
    { unfold batch. rewrite <- (firstn_skipn 10 (skipn (Z.to_nat i) chunks)) at 1.
      rewrite skipn_skipn. do 2 f_equal. lia. }
    assert (length batch = Nat.min 10 (length chunks - Z.to_nat i)) as Hlen.
    { unfold batch. now rewrite length_firstn, length_skipn. }
    pose proof (embedDocuments_outcome (map pageContent batch) w) as Hembed.
    destruct (embedDocumentsResult env
                (history w ++ [EmbedDocuments Foreign (map pageContent batch)]))
      as [e|embeddings].
    { rewrite (bind_Threw _ _ _ _ _ Hembed). cbn [worldOf history tableSplitter].
      eexists [_; _].
      split; [reflexivity|]. split; [reflexivity|].
      split; [discriminate|].
      split; [repeat split; constructor|].
      split; [repeat constructor | discriminate]. }
    rewrite (bind_Returned _ _ _ _ _ Hembed). clear Hembed.
    destruct (chunkRecords_rows documentId embeddings i batch 0
                (mkWorld (history w
                          ++ [EmbedDocuments Foreign (map pageContent batch)])
                   (tableSplitter w)))
      as (rows & evs1 & Hrec & Hq & Hc & Hm & Hix & Hd).
    rewrite (bind_Returned _ _ _ _ _ Hrec). clear Hrec.
    rewrite (bind_Returned _ _ _ _ _ (call_eq _ _ _)).
    cbn [history tableSplitter].
    assert (length rows = length batch) as Hrows
      by (rewrite <- (length_map chunk_content), Hc; apply length_map).
    assert (rowsFollow documentId chunks i rows) as Hfollow.
    { unfold rowsFollow. rewrite Hrows, Hsplit, !firstn_map_app, Hc, Hm, Hix.
      repeat split; auto. apply map_ext. intros k. lia. }
    assert ((1 <= length rows <= 10)%nat) as Hsize by lia.
    set (h1 := ((history w ++ [EmbedDocuments Foreign (map pageContent batch)])
                ++ evs1) ++ [InsertChunks Foreign rows]).
    assert (h1 = history w
                 ++ (EmbedDocuments Foreign (map pageContent batch) :: evs1
                     ++ [InsertChunks Foreign rows])) as Hh1.
    { unfold h1. rewrite <- !app_assoc. reflexivity. }
    assert (insertedChunks
              (EmbedDocuments Foreign (map pageContent batch) :: evs1
               ++ [InsertChunks Foreign rows]) = rows) as Hins.
    { cbn [insertedChunks]. rewrite insertedChunks_app.
      rewrite (Forall_quiet_insertedChunks _ Hq). cbn. apply app_nil_r. }
    assert (batchesOfTen
              (EmbedDocuments Foreign (map pageContent batch) :: evs1
               ++ [InsertChunks Foreign rows])) as Hb1.
    { constructor; [exact I|]. apply Forall_app. split.
      - eapply Forall_impl; [|exact Hq]. intros ev Hev.
        destruct ev; try exact I. discriminate.
      - constructor; [exact Hsize | constructor]. }
    destruct (chunksInsertError env h1) as [e|].
    { unfold throw. cbn [worldOf history tableSplitter].
      eexists. split; [exact Hh1|]. split; [reflexivity|].
      split; [discriminate|]. rewrite Hins.
      split; [exact Hfollow|]. split; [exact Hb1 | discriminate]. }
    destruct (IH (i + 10) (mkWorld h1 (tableSplitter w)) ltac:(lia))
      as (evs2 & Hh & Ht & Hn & Hf2 & Hb2 & Hr2).
    cbn [history tableSplitter] in Hh, Ht.
    exists ((EmbedDocuments Foreign (map pageContent batch) :: evs1
             ++ [InsertChunks Foreign rows]) ++ evs2).
    split; [rewrite Hh, Hh1; now rewrite <- app_assoc|].
    split; [exact Ht|]. split; [exact Hn|].
    rewrite insertedChunks_app, Hins.
    assert (length rows < 10 -> insertedChunks evs2 = [])%nat as Hshort.
    { intros Hs. destruct Hf2 as (Hf2 & _).
      rewrite skipn_all2 in Hf2 by lia.
      cbn in Hf2. rewrite firstn_nil in Hf2.
      now destruct (insertedChunks evs2). }
    split; [|split].
    + destruct Hfollow as (F1 & F2 & F3 & F4).
      destruct Hf2 as (G1 & G2 & G3 & G4).
      destruct (Nat.lt_ge_cases (length rows) 10) as [Hs|Hs].
      * rewrite (Hshort Hs), app_nil_r. now repeat split.
      * assert (length rows = 10)%nat as H10 by lia.
        assert (forall {X} (f : Document -> X) m,
                  firstn (length rows + m) (map f (skipn (Z.to_nat i) chunks))
                  = map f batch
                    ++ firstn m (map f (skipn (Z.to_nat (i + 10)) chunks)))
          as Hcut.
        { intros X f m. rewrite Hsplit, map_app, firstn_app, length_map.
          rewrite firstn_all2 by (rewrite length_map; lia).
          do 2 f_equal. lia. }
        unfold rowsFollow. rewrite !map_app, length_app, !Hcut.
        rewrite Hc, Hm, G1, G2.
        repeat split; auto.
        -- rewrite F3, G3, seq_app, map_app. f_equal. cbn [Nat.add].
           rewrite (map_seq_from _ _ (length rows)).
           apply map_ext. intros k. lia.
        -- apply Forall_app. now split.
    + apply Forall_app. now split.
    + intros u w' Hret Hround. rewrite length_app.
      destruct (Nat.lt_ge_cases (length rows) 10) as [Hs|Hs].
      * rewrite (Hshort Hs). cbn. lia.
      * rewrite (Hr2 u w' Hret) by lia. lia.
Qed.

(** Where the loop throws: at the embedding that failed, after the line
    on the console, or at the insert that reported an error. *)
Lemma storeLoop_throws documentId chunks : forall rounds i w e w',
  storeLoop env rounds documentId chunks i w = Threw e w' ->
  (exists f pre rows,
      e = ForeignValue f /\ history w' = pre ++ [InsertChunks Foreign rows]
      /\ chunksInsertError env (history w') = Some f)
  \/ (exists f pre texts,
        e = ErrorObject (lit "Failed to generate embeddings: "
                         ++ foreignToString env f)
        /\ history w'
           = pre ++ [EmbedDocuments Foreign texts;
                     ConsoleError Foreign (lit "Error embedding documents:")
                       (ForeignValue f)]
        /\ embedDocumentsResult env (pre ++ [EmbedDocuments Foreign texts])
           = inl f).
Proof.
  induction rounds as [|rounds IH]; intros i w e w'; [discriminate|].
  cbn [storeLoop].
  destruct (i <? Z.of_nat (length chunks)); [|discriminate].
  set (batch := arraySlice chunks i (i + 10)).
  pose proof (embedDocuments_outcome (map pageContent batch) w) as Hembed.
  destruct (embedDocumentsResult env
              (history w ++ [EmbedDocuments Foreign (map pageContent batch)]))
    as [f|embeddings] eqn:Hres.
  { rewrite (bind_Threw _ _ _ _ _ Hembed). intros [= <- <-]. right.
    exists f, (history w), (map pageContent batch). now repeat split. }
  rewrite (bind_Returned _ _ _ _ _ Hembed). clear Hembed.
  destruct (chunkRecords_rows documentId embeddings i batch 0
              (mkWorld (history w
                        ++ [EmbedDocuments Foreign (map pageContent batch)])
                 (tableSplitter w)))
    as (rows & evs1 & Hrec & _).
  rewrite (bind_Returned _ _ _ _ _ Hrec). clear Hrec.
  rewrite (bind_Returned _ _ _ _ _ (call_eq _ _ _)).
  cbn [history tableSplitter].
  destruct (chunksInsertError env _) as [f|] eqn:Herr; [|apply IH].
  intros [= <- <-]. left. cbn [history].
  eexists f, _, rows. split; [reflexivity|]. split; [reflexivity | exact Herr].
Qed.

(** X12: whatever the services answer, [storeChunks] asks
    [document_chunks] for the chunks in their order and for nothing
    else: the rows asked for carry the texts and the metadata of the
    first chunks, are numbered 0, 1, 2, ... and belong to the document;
    when the call returns, they are all the chunks. *)
Theorem storeChunks_rows_in_order : forall documentId chunks w,
  exists evs,
    history (worldOf (storeChunks env documentId chunks w)) = history w ++ evs
    /\ map chunk_content (insertedChunks evs)
       = firstn (length (insertedChunks evs)) (map pageContent chunks)
    /\ map chunk_metadata (insertedChunks evs)
       = firstn (length (insertedChunks evs)) (map metadata chunks)
    /\ map chunk_index (insertedChunks evs)
       = map Z.of_nat (seq 0 (length (insertedChunks evs)))
    /\ Forall (fun r => chunk_document_id r = documentId) (insertedChunks evs)
    /\ (forall u w',
          storeChunks env documentId chunks w = Returned u w' ->
          length (insertedChunks evs) = length chunks).
Proof.
  intros documentId chunks w. unfold storeChunks.
  destruct (storeLoop_rows documentId chunks (length chunks) 0 w (Z.le_refl 0))
    as (evs & Hh & _ & _ & (F1 & F2 & F3 & F4) & _ & Hr).
  exists evs. cbn [Z.to_nat skipn] in *.
  repeat split; auto.
  intros u w' H. rewrite (Hr u w' H) by lia. lia.
Qed.

(** X13: [storeChunks] never hangs and leaves the splitter alone; every
    insert into [document_chunks] carries at least one and at most ten
    rows. *)
Theorem storeChunks_batches_of_ten : forall documentId chunks w,
  (forall w', storeChunks env documentId chunks w <> Hangs w')
  /\ tableSplitter (worldOf (storeChunks env documentId chunks w))
     = tableSplitter w
  /\ exists evs,
       history (worldOf (storeChunks env documentId chunks w)) = history w ++ evs
       /\ batchesOfTen evs.
Proof.
  intros documentId chunks w. unfold storeChunks.
  destruct (storeLoop_rows documentId chunks (length chunks) 0 w (Z.le_refl 0))
    as (evs & Hh & Ht & Hn & _ & Hb & _).
  repeat split; auto. now exists evs.
Qed.

(** X14: [storeChunks] stops at the first failure: when it throws, the
    last thing it did is the insert that reported the error thrown, or
    the line on the console about the embedding that failed; rows
    asked for before stay as they are. *)
Theorem storeChunks_stops_at_failure : forall documentId chunks w e w',
  storeChunks env documentId chunks w = Threw e w' ->
  (exists f pre rows,
      e = ForeignValue f /\ history w' = pre ++ [InsertChunks Foreign rows]
      /\ chunksInsertError env (history w') = Some f)
  \/ (exists f pre texts,
        e = ErrorObject (lit "Failed to generate embeddings: "
                         ++ foreignToString env f)
        /\ history w'
           = pre ++ [EmbedDocuments Foreign texts;
                     ConsoleError Foreign (lit "Error embedding documents:")
                       (ForeignValue f)]
        /\ embedDocumentsResult env (pre ++ [EmbedDocuments Foreign texts])
           = inl f).
Proof.
  intros documentId chunks w e w'. unfold storeChunks. apply storeLoop_throws.
Qed.

(* ------------------------------------------------------------------ *)
(** ** The processor as a whole *)

(** [extractText] asks nothing of the outside. *)
Lemma extractText_pure fileBuffer fileName w :
  (exists text, extractText env fileBuffer fileName w = Returned text w)
  \/ (exists e, extractText env fileBuffer fileName w = Threw e w).
Proof.
  unfold extractText.
  repeat match goal with
         | |- context [if ?b then _ else _] => destruct b
         end;
    unfold await;
    try (destruct (pdfParse env fileBuffer));
    try (destruct (extractRawText env fileBuffer));
    unfold ret, throw; eauto.
Qed.

Lemma createDocumentRecord_outcome id title documentType metadata w :
  createDocumentRecord env id title documentType metadata w
  = let h := history w
             ++ [Now Foreign; Now Foreign;
                 InsertDocuments Foreign
                   [documentRowAt env (history w) id title documentType metadata]] in
    match documentsInsertError env h with
    | Some e => Threw (ForeignValue e) (mkWorld h (tableSplitter w))
    | None => Returned tt (mkWorld h (tableSplitter w))
    end.
Proof.
  unfold createDocumentRecord.
  rewrite (bind_Returned _ _ _ _ _ (call_eq _ _ _)).
  rewrite (bind_Returned _ _ _ _ _ (call_eq _ _ _)).
  rewrite (bind_Returned _ _ _ _ _ (call_eq _ _ _)).
  cbn [history tableSplitter]. cbv zeta. unfold documentRowAt.
  rewrite <- !app_assoc. cbn [app].
  now destruct (documentsInsertError env _).
Qed.

(** The handler of [processDocument] *)
Lemma processDocument_catch {A} (c : M Foreign A) k w e w' :
  c w = Threw e w' ->
  tryCatch c k w = k e w'.
Proof. unfold tryCatch. now intros ->. Qed.

(** [processDocument] once the text is there and the row of the
    document went in: the chunks are made and stored. *)
Lemma processDocument_after_record
    fuel fileBuffer fileName documentType metadata w text :
  extractText env fileBuffer fileName w = Returned text w ->
  documentsInsertError env
    (history w ++ recordEvents env (history w) fileName documentType metadata)
  = None ->
  let w1 := mkWorld
              (history w ++ recordEvents env (history w) fileName documentType metadata)
              (tableSplitter w) in
  let documentId := uuidv4 env (history w ++ [Uuid Foreign]) in
  processDocument env fuel fileBuffer fileName documentType metadata w
  = tryCatch
      (bind (createChunks env fuel text documentType)
         (fun chunks =>
            bind (storeChunks env documentId chunks)
                 (fun _ => ret documentId)))
      (fun error =>
         bind (call (ConsoleError Foreign (lit "Document processing error:") error)
                    (fun _ => tt))
              (fun _ => throw (ErrorObject
                                 (lit "Failed to process document: "
                                  ++ templateOf env error))))
      w1.
Proof.
  intros Htext Hins w1 documentId.
  unfold processDocument, tryCatch.
  rewrite (bind_Returned _ _ _ _ _ Htext).
  rewrite (bind_Returned _ _ _ _ _ (call_eq _ _ _)).
  match goal with
  | |- context [bind (createDocumentRecord env ?i ?t ?d ?m) ?k ?w0] =>
      pose proof (createDocumentRecord_outcome i t d m w0) as Hrec
  end.
  cbn [history tableSplitter] in Hrec. cbv zeta in Hrec.
  rewrite <- app_assoc in Hrec. cbn [app] in Hrec.
  unfold recordEvents in Hins. rewrite Hins in Hrec.
  rewrite (bind_Returned _ _ _ _ _ Hrec). reflexivity.
Qed.

(** X15: a document of a banking type whose text has a row of pipes
    after its first line: [processDocument] draws the identifier, asks
    [documents] to insert the row, and then hangs in the splitter; no
    chunk is stored and the call neither returns nor throws. *)
Theorem banking_row_hangs_after_document_row :
  forall fuel fileBuffer fileName documentType metadata w pre b c,
  tableSplitter w = newBankingDocumentSplitter ->
  isBankingDocument documentType = true ->
  extractText env fileBuffer fileName w
  = Returned (pre ++ pipe :: b ++ pipe :: c) w ->
  In nl pre -> forallb RegExp.dot b = true ->
  documentsInsertError env
    (history w ++ recordEvents env (history w) fileName documentType metadata)
  = None ->
  processDocument env fuel fileBuffer fileName documentType metadata w
  = Hangs (mkWorld
             (history w ++ recordEvents env (history w) fileName documentType metadata)
             (tableSplitter w)).
Proof.
  intros fuel fileBuffer fileName documentType metadata w pre b c
         Hts Hbank Htext Hnl Hb Hins.
  rewrite (processDocument_after_record _ _ _ _ _ _ _ Htext Hins). cbv zeta.
  unfold tryCatch.
  erewrite bind_Hangs; [reflexivity|].
  unfold createChunks. rewrite Hbank. cbn [tableSplitter]. rewrite Hts.
  now rewrite splitTextIntoDocuments_row_hangs.
Qed.

Lemma storeChunks_ends documentId chunks w :
  (exists u w', storeChunks env documentId chunks w = Returned u w')
  \/ (exists e w', storeChunks env documentId chunks w = Threw e w').
Proof.
  unfold storeChunks.
  destruct (storeLoop_rows documentId chunks (length chunks) 0 w (Z.le_refl 0))
    as (_ & _ & _ & Hn & _).
  destruct (storeLoop env (length chunks) documentId chunks 0 w) as [u w'|e w'|w'];
    [left; eauto | right; eauto | now destruct (Hn w')].
Qed.

(** X20: when no service reports a failure, the text could be
    extracted and the chunks could be made, [processDocument] returns
    the identifier it drew: storing the chunks cannot fail on its
    own. *)
Theorem processDocument_returns_when_services_answer :
  forall fuel fileBuffer fileName documentType metadata w text chunks w1,
  (forall h, documentsInsertError env h = None) ->
  (forall h, chunksInsertError env h = None) ->
  (forall h f, embedDocumentsResult env h <> inl f) ->
  extractText env fileBuffer fileName w = Returned text w ->
  createChunks env fuel text documentType
    (mkWorld
       (history w ++ recordEvents env (history w) fileName documentType metadata)
       (tableSplitter w))
  = Returned chunks w1 ->
  exists w',
    processDocument env fuel fileBuffer fileName documentType metadata w
    = Returned (uuidv4 env (history w ++ [Uuid Foreign])) w'
    /\ tableSplitter w' = tableSplitter w1
    /\ length (insertedChunks (history w'))
       = (length (insertedChunks (history w)) + length chunks)%nat.
Proof.
  intros fuel fileBuffer fileName documentType metadata w text chunks w1
         Hd Hc He Ht Hch.
  rewrite (processDocument_after_record _ _ _ _ _ _ _ Ht (Hd _)). cbv zeta.
  unfold tryCatch. rewrite (bind_Returned _ _ _ _ _ Hch).
  assert (history w1
          = history w
            ++ recordEvents env (history w) fileName documentType metadata) as Hw1.
  { revert Hch. unfold createChunks.
    destruct (isBankingDocument documentType); [|now intros [= _ <-]].
    destruct (splitTextIntoDocuments _ _ _ _) as [[c t]|]; [|discriminate].
    now intros [= _ <-]. }
  set (id := uuidv4 env (history w ++ [Uuid Foreign])).
  unfold storeChunks.
  destruct (storeLoop_rows id chunks (length chunks) 0 w1 (Z.le_refl 0))
    as (evs & Hh & Hts & Hn & _ & _ & Hr).
  destruct (storeLoop env (length chunks) id chunks 0 w1) as [u w2|e w2|w2]
    eqn:Hs.
  - rewrite (bind_Returned _ _ _ _ _ Hs). exists w2.
    cbn [worldOf] in Hh, Hts.
    split; [reflexivity|]. split; [exact Hts|].
    specialize (Hr u w2 eq_refl ltac:(lia)).
    rewrite Hh, Hw1, !insertedChunks_app, !length_app, Hr.
    cbn [recordEvents insertedChunks length Z.to_nat]. lia.
  - exfalso.
    destruct (storeLoop_throws _ _ _ _ _ _ _ Hs)
      as [(f & pre & rows & _ & _ & Hf)|(f & pre & texts & _ & _ & Hf)].
    + rewrite Hc in Hf. discriminate.
    + exact (He _ _ Hf).
  - now destruct (Hn w2).
Qed.

(* ------------------------------------------------------------------ *)
(** ** The upload route *)

Lemma handler_never_hangs label (error : Thrown Foreign) w w' :
  bind (call (ConsoleError Foreign label error) (fun _ => tt))
       (fun _ => throw (ErrorObject (lit "Failed to process document: "
                                     ++ templateOf env error))) w
  <> @Hangs Foreign jsstring w'.
Proof. discriminate. Qed.

(** X16: a document of any other type never hangs in [processDocument]:
    the table splitter is not used, and the call returns or throws. *)
Theorem other_types_never_hang :
  forall fuel fileBuffer fileName documentType metadata w w',
  isBankingDocument documentType = false ->
  processDocument env fuel fileBuffer fileName documentType metadata w
  <> Hangs w'.
Proof.
  intros fuel fileBuffer fileName documentType metadata w w' Hbank.
  destruct (extractText_pure fileBuffer fileName w) as [[text Ht]|[e Ht]].
  2:{ unfold processDocument.
      rewrite (processDocument_catch _ _ _ _ _ (bind_Threw _ _ _ _ _ Ht)).
      apply handler_never_hangs. }
  destruct (documentsInsertError env
              (history w ++ recordEvents env (history w) fileName documentType metadata))
    as [f|] eqn:Hins.
  - unfold processDocument. erewrite processDocument_catch;
      [apply handler_never_hangs|].
    rewrite (bind_Returned _ _ _ _ _ Ht).
    rewrite (bind_Returned _ _ _ _ _ (call_eq _ _ _)).
    apply bind_Threw. rewrite createDocumentRecord_outcome.
    cbn [history tableSplitter]. cbv zeta.
    rewrite <- app_assoc. cbn [app].
    unfold recordEvents in Hins. now rewrite Hins.
  - rewrite (processDocument_after_record _ _ _ _ _ _ _ Ht Hins). cbv zeta.
    unfold createChunks. rewrite Hbank. unfold tryCatch.
    set (w1 := mkWorld _ _).
    set (chunks := createDocuments env standardParams [text]).
    rewrite (bind_Returned _ _ _ _ _ (eq_refl : ret chunks w1 = Returned chunks w1)).
    destruct (storeChunks_ends (uuidv4 env (history w ++ [Uuid Foreign]))
                chunks w1) as [[u [w2 Hs]]|[e [w2 Hs]]].
    + rewrite (bind_Returned _ _ _ _ _ Hs). discriminate.
    + rewrite (bind_Threw _ _ _ _ _ Hs). discriminate.
Qed.

(** X17: when [processDocument] returns, what it returns is the
    identifier drawn first; the row of the document, under that
    identifier, was the first thing asked of the tables; and the rows
    asked of [document_chunks] are the chunks [createChunks] made, in
    their order, numbered from 0, all under that identifier. *)
Theorem processDocument_success_shape :
  forall fuel fileBuffer fileName documentType metadata w documentId w',
  processDocument env fuel fileBuffer fileName documentType metadata w
  = Returned documentId w' ->
  documentId = uuidv4 env (history w ++ [Uuid Foreign])
  /\ exists text chunks w1 evs,
       extractText env fileBuffer fileName w = Returned text w
       /\ createChunks env fuel text documentType
            (mkWorld (history w
                      ++ recordEvents env (history w) fileName documentType metadata)
               (tableSplitter w))
          = Returned chunks w1
       /\ history w'
          = history w ++ recordEvents env (history w) fileName documentType metadata
            ++ evs
       /\ map chunk_content (insertedChunks evs) = map pageContent chunks
       /\ map chunk_index (insertedChunks evs)
          = map Z.of_nat (seq 0 (length chunks))
       /\ Forall (fun r => chunk_document_id r = documentId) (insertedChunks evs).
Proof.
  intros fuel fileBuffer fileName documentType metadata w documentId w'.
  destruct (extractText_pure fileBuffer fileName w) as [[text Ht]|[e Ht]].
  2:{ unfold processDocument.
      rewrite (processDocument_catch _ _ _ _ _ (bind_Threw _ _ _ _ _ Ht)).
      discriminate. }
  destruct (documentsInsertError env
              (history w ++ recordEvents env (history w) fileName documentType metadata))
    as [f|] eqn:Hins.
  { unfold processDocument. erewrite processDocument_catch; [discriminate|].
    rewrite (bind_Returned _ _ _ _ _ Ht).
    rewrite (bind_Returned _ _ _ _ _ (call_eq _ _ _)).
    apply bind_Threw. rewrite createDocumentRecord_outcome.
    cbn [history tableSplitter]. cbv zeta.
    rewrite <- app_assoc. cbn [app].
    unfold recordEvents in Hins. now rewrite Hins. }
  rewrite (processDocument_after_record _ _ _ _ _ _ _ Ht Hins). cbv zeta.
  set (w0 := mkWorld _ _). unfold tryCatch.
  destruct (createChunks env fuel text documentType w0) as [chunks w1|e w1|w1]
    eqn:Hc.
  2:{ rewrite (bind_Threw _ _ _ _ _ Hc). discriminate. }
  2:{ rewrite (bind_Hangs _ _ _ _ Hc). discriminate. }
  rewrite (bind_Returned _ _ _ _ _ Hc).
  assert (history w1 = history w0) as Hw1.
  { revert Hc. unfold createChunks.
    destruct (isBankingDocument documentType); [|now intros [= _ <-]].
    destruct (splitTextIntoDocuments _ _ _ _) as [[c t]|]; [|discriminate].
    now intros [= _ <-]. }
  set (id := uuidv4 env (history w ++ [Uuid Foreign])).
  unfold storeChunks.
  destruct (storeLoop_rows id chunks (length chunks) 0 w1 (Z.le_refl 0))
    as (evs & Hh & _ & _ & (F1 & _ & F3 & F4) & _ & Hr).
  destruct (storeLoop env (length chunks) id chunks 0 w1) as [u w2|e w2|w2]
    eqn:Hs.
  2:{ rewrite (bind_Threw _ _ _ _ _ Hs). discriminate. }
  2:{ rewrite (bind_Hangs _ _ _ _ Hs). discriminate. }
  rewrite (bind_Returned _ _ _ _ _ Hs).
  intros [= <- <-]. split; [reflexivity|].
  exists text, chunks, w1, evs.
  cbn [worldOf] in Hh. rewrite Hw1 in Hh. unfold w0 in Hh. cbn [history] in Hh.
  specialize (Hr u w2 eq_refl ltac:(lia)).
  cbn [Z.to_nat skipn] in *. rewrite Nat.sub_0_r in Hr.
  rewrite Hr in F1, F3. rewrite firstn_all2 in F1 by (rewrite length_map; lia).
  split; [exact Ht|]. split; [exact Hc|].
  split; [rewrite Hh; now rewrite <- app_assoc|].
  repeat split; auto.
Qed.

(** X18: the handler [POST] never throws.  An answer with status 400
    comes without anything done; an answer with status 500 has the
    one fixed text, whatever was thrown, after a line on the console;
    an answer with status 200 carries an identifier. *)
Theorem POST_outcomes : forall fuel formData w,
  match POST env fuel formData w with
  | Returned r w' =>
      (status r = 400 /\ w' = w /\ exists message, body r = ErrorBody message)
      \/ (status r = 500
          /\ body r = ErrorBody (lit "Failed to process document")
          /\ exists pre e,
               history w' = pre ++ [ConsoleError Foreign
                                      (lit "Document upload error:") e])
      \/ (status r = 200
          /\ exists documentId,
               body r = SuccessBody documentId
                          (lit "Document uploaded and processed successfully"))
  | Threw _ _ => False
  | Hangs _ => True
  end.
Proof.
  intros fuel formData w. unfold POST, tryCatch.
  destruct formData as [e|form].
  { unfold throw. right. left. cbn. repeat split. now exists (history w), e. }
  destruct (form_file form) as [file|]; [|left; cbn; eauto].
  destruct (form_documentType form) as [[|c documentType]|];
    [left; cbn; eauto | | left; cbn; eauto].
  destruct (negb (existsb (streq (file_type file)) allowedTypes));
    [left; cbn; eauto|].
  destruct (maxSize <? file_size file); [left; cbn; eauto|].
  set (date := match form_effectiveDate form with
               | Some (_ :: _ as d) => ret d
               | _ => _
               end).
  assert (exists d w0, date w = Returned d w0) as (d & w0 & Hd).
  { unfold date. destruct (form_effectiveDate form) as [[|x d]|];
      unfold ret; try (rewrite (bind_Returned _ _ _ _ _ (call_eq _ _ _)));
      eauto. }
  rewrite (bind_Returned _ _ _ _ _ Hd).
  rewrite (bind_Returned _ _ _ _ _ (call_eq _ _ _)).
  match goal with
  | |- context [bind (processDocument env fuel ?b ?n ?t ?m) ?k ?w1] =>
      destruct (processDocument env fuel b n t m w1) as [id w2|e w2|w2] eqn:Hp
  end.
  - rewrite (bind_Returned _ _ _ _ _ Hp).
    rewrite (bind_Returned _ _ _ _ _ (call_eq _ _ _)).
    right. right. cbn. eauto.
  - rewrite (bind_Threw _ _ _ _ _ Hp).
    rewrite (bind_Returned _ _ _ _ _ (call_eq _ _ _)).
    right. left. cbn. repeat split. now exists (history w2), e.
  - now rewrite (bind_Hangs _ _ _ _ Hp).
Qed.

(** [processDocument] on a file whose extension is none of the four. *)
Lemma processDocument_unsupported
    fuel fileBuffer fileName documentType metadata w e :
  pop (split 46%N (toLowerCase env fileName)) = Some e ->
  existsb (streq e) [lit "pdf"; lit "docx"; lit "doc"; lit "txt"] = false ->
  processDocument env fuel fileBuffer fileName documentType metadata w
  = Threw (ErrorObject (lit "Failed to process document: " ++ lit "Error: "
                        ++ lit "Unsupported file type: " ++ e))
      (mkWorld
         (history w
          ++ [ConsoleError Foreign (lit "Document processing error:")
                (ErrorObject (lit "Unsupported file type: " ++ e))])
         (tableSplitter w)).
Proof.
  intros Hext Hno.
  cbn [existsb] in Hno. rewrite !orb_false_iff in Hno.
  destruct Hno as (H1 & H2 & H3 & H4 & _).
  unfold processDocument, tryCatch, bind at 1, extractText.
  rewrite Hext, H1, H2, H3, H4. reflexivity.
Qed.

(** X19: the handler admits a file by its media type, [extractText]
    goes by the extension of its name.  A file of an admitted type and
    size whose name has another extension is answered with status 500,
    and nothing was asked of the embedding service or the tables. *)
Theorem accepted_type_with_other_extension :
  forall fuel form file documentType e w,
  form_file form = Some file ->
  form_documentType form = Some documentType -> documentType <> [] ->
  existsb (streq (file_type file)) allowedTypes = true ->
  file_size file <= maxSize ->
  pop (split 46%N (toLowerCase env (file_name file))) = Some e ->
  existsb (streq e) [lit "pdf"; lit "docx"; lit "doc"; lit "txt"] = false ->
  exists w' evs,
    POST env fuel (inr form) w
    = Returned (mkResponse 500 (ErrorBody (lit "Failed to process document"))) w'
    /\ history w' = history w ++ evs
    /\ existsb reachesService evs = false.
Proof.
  intros fuel form file documentType e w Hfile Htype Hne Hallowed Hsize Hext Hno.
  unfold POST, tryCatch. rewrite Hfile, Htype.
  destruct documentType as [|c documentType]; [contradiction|].
  rewrite Hallowed. cbn [negb].
  destruct (Z.ltb_spec maxSize (file_size file)); [lia|].
  set (date := match form_effectiveDate form with
               | Some (_ :: _ as d) => ret d
               | _ => _
               end).
  assert (exists d evs0, date w = Returned d (mkWorld (history w ++ evs0)
                                               (tableSplitter w))
                         /\ existsb reachesService evs0 = false)
    as (d & evs0 & Hd & Hq).
  { unfold date. destruct (form_effectiveDate form) as [[|x d]|];
      unfold ret; try (rewrite (bind_Returned _ _ _ _ _ (call_eq _ _ _)));
      try (eexists _, [Now Foreign]; split; reflexivity);
      eexists _, []; rewrite app_nil_r; destruct w; split; reflexivity. }
  rewrite (bind_Returned _ _ _ _ _ Hd).
  rewrite (bind_Returned _ _ _ _ _ (call_eq _ _ _)).
  erewrite bind_Threw by (apply processDocument_unsupported; eassumption).
  rewrite (bind_Returned _ _ _ _ _ (call_eq _ _ _)).
  unfold ret. cbn [history tableSplitter].
  eexists _, (evs0 ++ [_; _; _]). split; [reflexivity|].
  split; [now rewrite <- !app_assoc|].
  rewrite existsb_app, Hq. reflexivity.
Qed.

End StoreFacts.

Lemma storeChunks_stops_at_failure_witness :
  exists e w',
    storeChunks stormyEnvironment (lit "doc-1") twelveChunks (@newWorld unit)
    = Threw e w'
    /\ length (insertedChunks (history w')) = 12%nat
    /\ ((exists f pre rows,
           e = ForeignValue f /\ history w' = pre ++ [InsertChunks unit rows]
           /\ chunksInsertError stormyEnvironment (history w') = Some f)
        \/ (exists f pre texts,
              e = ErrorObject (lit "Failed to generate embeddings: "
                               ++ foreignToString stormyEnvironment f)
              /\ history w'
                 = pre ++ [EmbedDocuments unit texts;
                           ConsoleError unit (lit "Error embedding documents:")
                             (ForeignValue f)]
              /\ embedDocumentsResult stormyEnvironment
                   (pre ++ [EmbedDocuments unit texts])
                 = inl f)).
Proof.
  eexists. eexists. split; [vm_compute; reflexivity|].
  split; [reflexivity|].
  apply (storeChunks_stops_at_failure unit jsstring Z stormyEnvironment
           (lit "doc-1") twelveChunks (@newWorld unit)).
  vm_compute. reflexivity.
Defined.

Lemma banking_row_hangs_after_document_row_witness :
  isBankingDocument (lit "rate_sheet") = true
  /\ In nl (lit "Rates" ++ [nl])
  /\ processDocument calmEnvironment 40 rateSheet (lit "rates.txt")
       (lit "rate_sheet") [] (@newWorld unit)
     = Hangs (mkWorld
                (history (@newWorld unit)
                 ++ recordEvents calmEnvironment (history (@newWorld unit))
                      (lit "rates.txt") (lit "rate_sheet") [])
                (tableSplitter (@newWorld unit))).
Proof.
  split; [reflexivity|]. split; [vm_compute; tauto|].
  apply (banking_row_hangs_after_document_row unit jsstring Z calmEnvironment
           40 rateSheet (lit "rates.txt") (lit "rate_sheet") [] (@newWorld unit)
           (lit "Rates" ++ [nl]) (lit " 3.5% ") (lit " 30yr |")
           eq_refl eq_refl eq_refl).
  - vm_compute. tauto.
  - reflexivity.
  - reflexivity.
Defined.

Lemma other_types_never_hang_witness :
  isBankingDocument (lit "memo") = false
  /\ processDocument calmEnvironment 40 rateSheet (lit "rates.txt")
       (lit "memo") [] (@newWorld unit)
     <> Hangs (@newWorld unit).
Proof.
  split; [reflexivity|].
  exact (other_types_never_hang unit jsstring Z calmEnvironment
           40 rateSheet (lit "rates.txt") (lit "memo") [] (@newWorld unit)
           (@newWorld unit) eq_refl).
Defined.

Lemma processDocument_success_shape_witness :
  exists documentId w',
    processDocument calmEnvironment 40 rateSheet (lit "rates.txt")
      (lit "memo") [] (@newWorld unit)
    = Returned documentId w'
    /\ documentId = lit "id-i"
    /\ map chunk_index (insertedChunks (history w')) = [0]
    /\ (documentId
        = uuidv4 calmEnvironment (history (@newWorld unit) ++ [Uuid unit])
        /\ exists text chunks w1 evs,
             extractText calmEnvironment rateSheet (lit "rates.txt")
               (@newWorld unit)
             = Returned text (@newWorld unit)
             /\ createChunks calmEnvironment 40 text (lit "memo")
                  (mkWorld (history (@newWorld unit)
                            ++ recordEvents calmEnvironment
                                 (history (@newWorld unit))
                                 (lit "rates.txt") (lit "memo") [])
                     (tableSplitter (@newWorld unit)))
                = Returned chunks w1
             /\ history w'
                = history (@newWorld unit)
                  ++ recordEvents calmEnvironment (history (@newWorld unit))
                       (lit "rates.txt") (lit "memo") []
                  ++ evs
             /\ map chunk_content (insertedChunks evs) = map pageContent chunks
             /\ map chunk_index (insertedChunks evs)
                = map Z.of_nat (seq 0 (length chunks))
             /\ Forall (fun r => chunk_document_id r = documentId)
                  (insertedChunks evs)).
Proof.
  eexists. eexists. split; [vm_compute; reflexivity|].
  split; [reflexivity|]. split; [reflexivity|].
  apply (processDocument_success_shape unit jsstring Z calmEnvironment
           40 rateSheet (lit "rates.txt") (lit "memo") [] (@newWorld unit)).
  vm_compute. reflexivity.
Defined.

Lemma accepted_type_with_other_extension_witness :
  existsb (streq (lit "text/plain")) allowedTypes = true
  /\ 5 <= maxSize
  /\ pop (split 46%N (toLowerCase calmEnvironment (lit "notes.md")))
     = Some (lit "md")
  /\ exists w' evs,
       POST calmEnvironment 40
         (inr (mkUploadForm
                 (Some (mkFile (lit "notes.md") (lit "text/plain") 5 (lit "hello")))
                 (Some (lit "memo")) None None))
         (@newWorld unit)
       = Returned (mkResponse 500 (ErrorBody (lit "Failed to process document"))) w'
       /\ history w' = history (@newWorld unit) ++ evs
       /\ existsb reachesService evs = false.
Proof.
  split; [reflexivity|]. split; [vm_compute; discriminate|]. split; [reflexivity|].
  apply (accepted_type_with_other_extension unit jsstring Z calmEnvironment 40
           (mkUploadForm
              (Some (mkFile (lit "notes.md") (lit "text/plain") 5 (lit "hello")))
              (Some (lit "memo")) None None)
           (mkFile (lit "notes.md") (lit "text/plain") 5 (lit "hello"))
           (lit "memo") (lit "md") (@newWorld unit) eq_refl eq_refl).
  - discriminate.
  - reflexivity.
  - vm_compute. discriminate.
  - reflexivity.
  - reflexivity.
Defined.

Lemma processDocument_returns_when_services_answer_witness :
  exists chunks w1 w',
    createChunks calmEnvironment 40 (lit "Exhibit 7" ++ [nl] ++ lit "rates")
      (lit "rate_sheet")
      (mkWorld
         (history (@newWorld unit)
          ++ recordEvents calmEnvironment (history (@newWorld unit))
               (lit "rates.txt") (lit "rate_sheet") [])
         (tableSplitter (@newWorld unit)))
    = Returned chunks w1
    /\ length chunks = 2%nat
    /\ processDocument calmEnvironment 40
         (lit "Exhibit 7" ++ [nl] ++ lit "rates") (lit "rates.txt")
         (lit "rate_sheet") [] (@newWorld unit)
       = Returned
           (uuidv4 calmEnvironment (history (@newWorld unit) ++ [Uuid unit])) w'
    /\ tableSplitter w' = tableSplitter w1
    /\ length (insertedChunks (history w'))
       = (length (insertedChunks (history (@newWorld unit))) + length chunks)%nat.
Proof.
  eexists. eexists.
  assert (forall h f, embedDocumentsResult calmEnvironment h <> @inl unit _ f)
    as He.
  { intros h f. cbn [embedDocumentsResult calmEnvironment].
    destruct (rev h) as [|[] ?]; discriminate. }
  destruct (processDocument_returns_when_services_answer
              unit jsstring Z calmEnvironment 40
              (lit "Exhibit 7" ++ [nl] ++ lit "rates") (lit "rates.txt")
              (lit "rate_sheet") [] (@newWorld unit)
              (lit "Exhibit 7" ++ [nl] ++ lit "rates") _ _
              (fun _ => eq_refl) (fun _ => eq_refl) He eq_refl eq_refl)
    as (w' & H1 & H2 & H3).
  exists w'. split; [reflexivity|]. split; [reflexivity|].
  split; [exact H1|]. split; [exact H2 | exact H3].
Defined.
